(** * timetable: parsing, stitching and de-duplication of nextbus captures

    A shallow embedding of [timetable.py]: the body framer ([bodies]), the
    response parser ([query_data]), the de-duplicating location stream
    ([locations]) and the CSV writer and reader ([csv], [read_csv]).

    Python values are modelled as follows.
    - [str] (a Python 2 byte string) is [string]; a line of a file keeps its
      terminating newline, as file iteration yields it.
    - [int] (unbounded) is [Z].
    - [float] is the kernel's binary64 [float]; arithmetic and comparisons
      are the IEEE 754 ones of [PrimFloat].
    - the dictionary [previous_locations] is a [gmap Z (list _)].
    - an exception is a value [Raise e] of the [result] type.
    - [sorted] is not modelled: [locations] takes the batches in the order
      in which [sorted] hands them to the loops, each with its locations in
      that order.
    - [logging.warning] is an event that records the arguments of the call;
      what the logging library prints from them is not modelled. *)

From Stdlib Require Import ZArith Floats String Ascii List.
From Stdlib Require Import DecimalString DecimalZ DecimalPos.
From stdpp Require Import gmap strings list.

Set Warnings "-inexact-float".
Open Scope string_scope.
Open Scope list_scope.
Open Scope Z_scope.

(** ** Exceptions *)

Inductive exn : Type :=
  | AssertionError
  | IndexError
  | KeyError
  | ValueError
  | TypeError
  | OverflowError.

Inductive result (A : Type) : Type :=
  | Ok (a : A)
  | Raise (e : exn).
Arguments Ok {A} a.
Arguments Raise {A} e.

#[global] Instance result_ret : MRet result := fun A a => Ok a.
#[global] Instance result_bind : MBind result := fun A B k r =>
  match r with
  | Ok a => k a
  | Raise e => Raise e
  end.

(** [assert c] *)
Definition assert (c : bool) : result unit :=
  if c then Ok tt else Raise AssertionError.

Definition succeeds {A : Type} (r : result A) : Prop := exists a, r = Ok a.

(** ** The record type

    [vehicle_location = namedtuple('vehicle_location',
       'timestamp id route dir lat lon heading speed')].
    The parser first builds the tuple with the integer [secsSinceReport] in
    the [timestamp] field and later replaces it by a float, so the type of
    that field is a parameter. *)

Record vehicle_location_of (T : Type) : Type := mk_vehicle_location {
  timestamp : T;
  id : Z;
  route : string;
  dir : option string;
  lat : float;
  lon : float;
  heading : Z;
  speed : Z
}.
Arguments mk_vehicle_location {T}.
Arguments timestamp {T}.
Arguments id {T}.
Arguments route {T}.
Arguments dir {T}.
Arguments lat {T}.
Arguments lon {T}.
Arguments heading {T}.
Arguments speed {T}.

Abbreviation vehicle_location := (vehicle_location_of float).

(** [loc._replace(timestamp=t)] *)
Definition replace_timestamp {T U : Type} (loc : vehicle_location_of T) (t : U)
  : vehicle_location_of U :=
  mk_vehicle_location t (id loc) (route loc) (dir loc) (lat loc) (lon loc)
                      (heading loc) (speed loc).

(** ** Archive.locations: the de-duplicating stream *)

(** What the generator does that a caller can observe: it yields a location,
    or it logs the out-of-order warning.  The warning records the arguments
    passed to [logging.warning]; [warn_query] is the query timestamp given to
    [datetime.fromtimestamp] and [warn_secs] is
    [query_timestamp - loc.timestamp]. *)
Record warning : Type := mk_warning {
  warn_query : float;
  warn_id : Z;
  warn_route : string;
  warn_dir : option string;
  warn_lat : float;
  warn_lon : float;
  warn_secs : float;
  warn_heading : Z;
  warn_speed : Z
}.

Inductive event : Type :=
  | Yield (loc : vehicle_location)
  | Warn (w : warning).

Definition out_of_order_warning (query_timestamp : float) (loc : vehicle_location)
  : warning :=
  mk_warning query_timestamp (id loc) (route loc) (dir loc) (lat loc) (lon loc)
             (query_timestamp - timestamp loc)%float (heading loc) (speed loc).

(** The condition under [any(...)], for one [prev]. *)
Definition is_duplicate (loc prev : vehicle_location) : bool :=
  (abs (timestamp loc - timestamp prev) <? 3)%float
  && String.eqb (route loc) (route prev)
  && (abs (lat loc - lat prev) <? 0.0000001)%float
  && (abs (lon loc - lon prev) <? 0.0000001)%float
  && (speed loc =? speed prev)
  && ((heading loc =? heading prev) || (speed loc =? 0)).

(** The dictionary [self.previous_locations]. *)
Abbreviation history := (gmap Z (list vehicle_location)).

(** [d.setdefault(k, [])]: the list stored under [k], and the dictionary with
    [k] bound. *)
Definition setdefault (d : history) (k : Z) : list vehicle_location * history :=
  match d !! k with
  | Some prevs => (prevs, d)
  | None => ([], <[k := []]> d)
  end.

(** [prevs.append(loc); if len(prevs) > 3: prevs.pop(0)] *)
Definition track (prevs : list vehicle_location) (loc : vehicle_location)
  : list vehicle_location :=
  let prevs := prevs ++ [loc] in
  if (3 <? Z.of_nat (length prevs)) then drop 1 prevs else prevs.

(** [if prevs and loc.timestamp <= prevs[-1].timestamp: logging.warning(...)] *)
Definition out_of_order (query_timestamp : float) (loc : vehicle_location)
    (prevs : list vehicle_location) : list event :=
  match last prevs with
  | Some newest =>
      if (timestamp loc <=? timestamp newest)%float
      then [Warn (out_of_order_warning query_timestamp loc)]
      else []
  | None => []
  end.

(** The body of the inner loop, for one [loc] of a batch. *)
Definition locations_step (query_timestamp : float) (loc : vehicle_location)
    (d : history) : list event * history :=
  let '(prevs, d) := setdefault d (id loc) in
  if existsb (is_duplicate loc) prevs then ([], d)
  else (out_of_order query_timestamp loc prevs ++ [Yield loc],
        <[id loc := track prevs loc]> d).

(** [for loc in sorted(vehicle_locations): ...], on the sorted list. *)
Fixpoint locations_batch (query_timestamp : float)
    (vehicle_locations : list vehicle_location) (d : history)
  : list event * history :=
  match vehicle_locations with
  | [] => ([], d)
  | loc :: rest =>
      let '(ev, d) := locations_step query_timestamp loc d in
      let '(evs, d) := locations_batch query_timestamp rest d in
      (ev ++ evs, d)
  end.

(** [for query_timestamp, vehicle_locations in sorted(...): ...], on the
    sorted list of batches, each with its sorted locations. *)
Fixpoint locations_from (batches : list (float * list vehicle_location))
    (d : history) : list event * history :=
  match batches with
  | [] => ([], d)
  | (query_timestamp, vehicle_locations) :: rest =>
      let '(ev, d) := locations_batch query_timestamp vehicle_locations d in
      let '(evs, d) := locations_from rest d in
      (ev ++ evs, d)
  end.

(** A fresh [Archive] starts with [previous_locations = {}]. *)
Definition locations (batches : list (float * list vehicle_location))
  : list event * history :=
  locations_from batches ∅.

(** The locations a run yields, in order. *)
Definition yielded (evs : list event) : list vehicle_location :=
  omap (fun e => match e with Yield loc => Some loc | Warn _ => None end) evs.

(** The list kept for a vehicle ([[]] when the key is unbound). *)
Definition history_of (d : history) (k : Z) : list vehicle_location :=
  default [] (d !! k).

(** ** Python built-ins on strings and lists *)

(** The double-quote character and the newline.  String literals below are
    written with an apostrophe where the source has a double quote, and [py]
    puts the double quote back. *)
Definition dquote : ascii := "034"%char.
Definition newline : ascii := "010"%char.
Definition nl : string := String newline "".

Fixpoint py (s : string) : string :=
  match s with
  | "" => ""
  | String c s' => String (if Ascii.eqb c "'" then dquote else c) (py s')
  end.

(** [string.whitespace]: tab, newline, vertical tab, form feed, carriage
    return and space. *)
Definition is_space (c : ascii) : bool :=
  let n := nat_of_ascii c in
  ((9 <=? n) && (n <=? 13))%nat || (n =? 32)%nat.

(** [s.lstrip(chars)] and [s.rstrip(chars)], for the characters satisfying [p]. *)
Fixpoint lstrip_with (p : ascii -> bool) (s : string) : string :=
  match s with
  | "" => ""
  | String c s' => if p c then lstrip_with p s' else s
  end.

Fixpoint rstrip_with (p : ascii -> bool) (s : string) : string :=
  match s with
  | "" => ""
  | String c s' =>
      match rstrip_with p s' with
      | "" => if p c then "" else String c ""
      | r => String c r
      end
  end.

(** [s.strip()] *)
Definition strip (s : string) : string :=
  lstrip_with is_space (rstrip_with is_space s).

(** [s.startswith(p)] and [s.endswith(p)] *)
Definition startswith (s p : string) : bool := String.prefix p s.

Definition endswith (s p : string) : bool :=
  let n := String.length s in
  let k := String.length p in
  (k <=? n)%nat && String.eqb (substring (n - k) k s) p.

(** [s.split()]: the maximal runs of non-whitespace characters. *)
Fixpoint split_whitespace (s : string) : list string :=
  match s with
  | "" => []
  | String c s' =>
      if is_space c then split_whitespace s'
      else
        match s' with
        | "" => [String c ""]
        | String c' _ =>
            if is_space c' then String c "" :: split_whitespace s'
            else
              match split_whitespace s' with
              | w :: ws => String c w :: ws
              | [] => [String c ""]
              end
        end
  end.

(** [s.split(sep)] for a one-character separator: never empty. *)
Fixpoint split_on (sep : ascii) (s : string) : list string :=
  match s with
  | "" => [""]
  | String c s' =>
      if Ascii.eqb c sep then "" :: split_on sep s'
      else
        match split_on sep s' with
        | w :: ws => String c w :: ws
        | [] => [String c ""]
        end
  end.

(** [sep.join(l)] *)
Fixpoint join (sep : string) (l : list string) : string :=
  match l with
  | [] => ""
  | [x] => x
  | x :: rest => x +:+ sep +:+ join sep rest
  end.

(** [l[i]], negative indices counting from the end. *)
Definition getitem {A : Type} (l : list A) (i : Z) : result A :=
  let n := Z.of_nat (length l) in
  let j := if i <? 0 then i + n else i in
  if j <? 0 then Raise IndexError
  else match l !! Z.to_nat j with
       | Some x => Ok x
       | None => Raise IndexError
       end.

(** [l[start:stop]]: both bounds are clamped to the list. *)
Definition clamp (n i : Z) : Z :=
  if i <? 0 then Z.max 0 (i + n) else Z.min i n.

Definition slice {A : Type} (l : list A) (start stop : Z) : list A :=
  let n := Z.of_nat (length l) in
  let a := clamp n start in
  let b := clamp n stop in
  take (Z.to_nat (b - a)) (drop (Z.to_nat a) l).

(** [l[start:]] *)
Definition slice_from {A : Type} (l : list A) (start : Z) : list A :=
  drop (Z.to_nat (clamp (Z.of_nat (length l)) start)) l.

Definition str_getitem (s : string) (i : Z) : result ascii :=
  getitem (list_ascii_of_string s) i.

Definition str_slice (s : string) (start stop : Z) : string :=
  string_of_list_ascii (slice (list_ascii_of_string s) start stop).

(** [len(s)] *)
Definition len (s : string) : Z := Z.of_nat (String.length s).

(** ** Python built-ins on numbers *)

(** [str(n)] for an integer: decimal digits, with [-] for a negative one. *)
Definition str_int (n : Z) : string := NilZero.string_of_int (Z.to_int n).

(** [int(s)] for a string: surrounding whitespace is ignored, then an
    optional sign and at least one decimal digit. *)
Definition int (s : string) : result Z :=
  let parsed :=
    match strip s with
    | String "+" digits => Decimal.Pos <$> NilZero.uint_of_string digits
    | t => NilZero.int_of_string t
    end in
  match parsed with
  | Some d => Ok (Z.of_int d)
  | None => Raise ValueError
  end.

(** The conversion of an integer operand of a float operation: the nearest
    binary64 value (ties to even), [OverflowError] when there is none. *)
Definition float_of_int (n : Z) : result float :=
  let x := SF2Prim (binary_normalize prec emax n 0 false) in
  if is_infinity x then Raise OverflowError else Ok x.

(** [float(s)]: surrounding whitespace is ignored, then an optional sign and
    [inf], [infinity], [nan] (in any case) or a decimal literal
    [digits [. digits] [e [sign] digits]] with a digit before or after the
    point.  [decimal_literal] reads the unsigned literal as a pair [(m, e)]
    standing for [m * 10^e]. *)
Definition is_digit (c : ascii) : bool :=
  let n := nat_of_ascii c in ((48 <=? n) && (n <=? 57))%nat.

Fixpoint span_digits (s : string) : string * string :=
  match s with
  | "" => ("", "")
  | String c s' =>
      if is_digit c
      then let '(ds, r) := span_digits s' in (String c ds, r)
      else ("", s)
  end.

Definition uint_value (digits : string) : option Z :=
  Z.of_uint <$> NilZero.uint_of_string digits.

Definition decimal_exponent (s : string) : option Z :=
  match s with
  | "" => Some 0
  | String c r =>
      if Ascii.eqb c "e" || Ascii.eqb c "E" then
        match r with
        | String "-" ds => Z.opp <$> uint_value ds
        | String "+" ds => uint_value ds
        | ds => uint_value ds
        end
      else None
  end.

Definition decimal_literal (s : string) : option (Z * Z) :=
  let '(ipart, r) := span_digits s in
  let '(fpart, r) :=
    match r with
    | String "." r' => span_digits r'
    | _ => ("", r)
    end in
  m ← uint_value (ipart +:+ fpart);
  e ← decimal_exponent r;
  Some (m, e - len fpart).

(** The binary64 value nearest to [m * 10^e], for [0 <= m]. *)
Definition float_of_decimal (m e : Z) : float :=
  match m with
  | Zpos p =>
      if 0 <=? e
      then SF2Prim (binary_normalize prec emax (m * 10 ^ e) 0 false)
      else SF2Prim (SFdiv prec emax (S754_finite false p 0)
                          (S754_finite false (Z.to_pos (10 ^ (- e))) 0))
  | _ => 0%float
  end.

Fixpoint lower (s : string) : string :=
  match s with
  | "" => ""
  | String c s' =>
      let n := nat_of_ascii c in
      String (if ((65 <=? n) && (n <=? 90))%nat then ascii_of_nat (n + 32) else c)
             (lower s')
  end.

Definition float_unsigned (s : string) : option float :=
  let l := lower s in
  if String.eqb l "inf" || String.eqb l "infinity" then Some infinity
  else if String.eqb l "nan" then Some nan
  else '(m, e) ← decimal_literal s; Some (float_of_decimal m e).

Definition float_of_str (s : string) : result float :=
  let parsed :=
    match strip s with
    | String "-" t => PrimFloat.opp <$> float_unsigned t
    | String "+" t => float_unsigned t
    | t => float_unsigned t
    end in
  match parsed with
  | Some x => Ok x
  | None => Raise ValueError
  end.

(** [str(x)] for a float, as Python 2 prints it: the format [%.12g] (twelve
    significant digits, correctly rounded, trailing zeros dropped; exponent
    form when the decimal exponent is below [-4] or at least [12]) and [.0]
    added to a result that would read as an integer.

    [decimal_magnitude num den] is the exponent [x] with
    [10^x <= num/den < 10^(x+1)]. *)
Fixpoint magnitude_up (fuel : nat) (num den k : Z) : Z :=
  match fuel with
  | O => k
  | S fuel => if den * 10 <=? num then magnitude_up fuel num (den * 10) (k + 1) else k
  end.

Fixpoint magnitude_down (fuel : nat) (num den k : Z) : Z :=
  match fuel with
  | O => k
  | S fuel => if num <? den then magnitude_down fuel (num * 10) den (k + 1) else k
  end.

Definition decimal_magnitude (num den : Z) : Z :=
  if den <=? num then magnitude_up 400 num den 0
  else - magnitude_down 400 num den 0.

(** [num/den] rounded to an integer, ties to even. *)
Definition round_half_even (num den : Z) : Z :=
  let q := num / den in
  let r := num mod den in
  match 2 * r ?= den with
  | Lt => q
  | Gt => q + 1
  | Eq => if Z.even q then q else q + 1
  end.

Fixpoint zeros (n : nat) : string :=
  match n with
  | O => ""
  | S n => String "0" (zeros n)
  end.

(** The exponent of [%e]: a sign and at least two digits. *)
Definition str_exponent (x : Z) : string :=
  let digits := str_int (Z.abs x) in
  (if x <? 0 then "-" else "+")
    +:+ (if Z.abs x <? 10 then "0" +:+ digits else digits).

(** The twelve significant digits of [m * 2^e], for [0 < m], as an integer
    [d], and the decimal exponent [x] of the first of them. *)
Definition significant_digits (m e : Z) : Z * Z :=
  let num := if 0 <=? e then m * 2 ^ e else m in
  let den := if 0 <=? e then 1 else 2 ^ (- e) in
  let x := decimal_magnitude num den in
  let d := if x <=? 11 then round_half_even (num * 10 ^ (11 - x)) den
           else round_half_even num (den * 10 ^ (x - 11)) in
  if d =? 10 ^ 12 then (10 ^ 11, x + 1) else (d, x).

(** The digits (without trailing zeros) laid out by [%g], and [.0] added
    when there is neither a point nor an exponent. *)
Definition format_g (digits : string) (x : Z) : string :=
  if (x <? -4) || (12 <=? x) then
    let frac := str_slice digits 1 (len digits) in
    str_slice digits 0 1
      +:+ (if String.eqb frac "" then "" else "." +:+ frac)
      +:+ "e" +:+ str_exponent x
  else if 0 <=? x then
    if len digits <=? x + 1
    then digits +:+ zeros (Z.to_nat (x + 1 - len digits)) +:+ ".0"
    else str_slice digits 0 (x + 1) +:+ "." +:+ str_slice digits (x + 1) (len digits)
  else "0." +:+ zeros (Z.to_nat (- x - 1)) +:+ digits.

(** [m * 2^e], for [0 < m], in the format [%.12g] with [.0] added. *)
Definition str_float_finite (m e : Z) : string :=
  let '(d, x) := significant_digits m e in
  format_g (rstrip_with (Ascii.eqb "0") (str_int d)) x.

Definition str_float (x : float) : string :=
  match Prim2SF x with
  | S754_nan => "nan"
  | S754_infinity s => if s then "-inf" else "inf"
  | S754_zero s => if s then "-0.0" else "0.0"
  | S754_finite s m e => (if s then "-" else "") +:+ str_float_finite (Zpos m) e
  end.

(** ** Archive.bodies: framing the line stream *)

(** The loop of [bodies], with the buffer [body] as an accumulator: a
    buffer that starts with [<html>] is dropped at [</html>], any other
    buffer is yielded at [</body>]. *)
Fixpoint bodies_from (lines : list string) (body : list string)
  : list (list string) :=
  match lines with
  | [] => []
  | line :: rest =>
      let body := body ++ [line] in
      let first := hd line body in
      if String.eqb (strip first) "<html>" then
        if String.eqb (strip line) "</html>"
        then bodies_from rest []
        else bodies_from rest body
      else if String.eqb (strip line) "</body>"
      then body :: bodies_from rest []
      else bodies_from rest body
  end.

Definition bodies (lines : list string) : list (list string) :=
  bodies_from lines [].

(** ** Archive.query_data: decoding one body *)

Definition xml_header_marker : string :=
  py "<?xml version='1.0' encoding='utf-8' ?>".

Definition is_xml_header (line : string) : bool :=
  endswith (strip line) xml_header_marker.

(** [[i for i, line in enumerate(body) if ...]] *)
Fixpoint xml_header_from (i : Z) (body : list string) : list Z :=
  match body with
  | [] => []
  | line :: rest =>
      if is_xml_header line
      then i :: xml_header_from (i + 1) rest
      else xml_header_from (i + 1) rest
  end.

(** The attribute loop of one vehicle line: [attrs] is the dictionary built
    so far. *)
Fixpoint parse_attrs (tokens : list string) (attrs : gmap string string)
  : result (gmap string string) :=
  match tokens with
  | [] => Ok attrs
  | attr :: rest =>
      match split_on "=" attr with
      | [name; value] =>
          _ ← assert (bool_decide (attrs !! name = None));
          first ← str_getitem value 0;
          last ← str_getitem value (-1);
          _ ← assert (Ascii.eqb first last && Ascii.eqb last dquote);
          parse_attrs rest (<[name := str_slice value 1 (-1)]> attrs)
      | _ => Raise ValueError
      end
  end.

(** [attrs[key]] *)
Definition attr (attrs : gmap string string) (key : string) : result string :=
  match attrs !! key with
  | Some v => Ok v
  | None => Raise KeyError
  end.

(** One [<vehicle .../>] line: the provisional location, whose [timestamp]
    is the integer [secsSinceReport]. *)
Definition parse_vehicle (line : string) : result (vehicle_location_of Z) :=
  let s := strip line in
  _ ← assert (startswith s (py "<vehicle id='") && endswith s (py "'/>"));
  attrs ← parse_attrs (split_whitespace (str_slice s (len "<vehicle ") (- len "/>"))) ∅;
  secs ← attr attrs "secsSinceReport" ≫= int;
  vid ← attr attrs "id" ≫= int;
  vroute ← attr attrs "routeTag";
  let vdir := attrs !! "dirTag" in
  vlat ← attr attrs "lat" ≫= float_of_str;
  vlon ← attr attrs "lon" ≫= float_of_str;
  vheading ← attr attrs "heading" ≫= int;
  vspeed ← attr attrs "speedKmHr" ≫= int;
  Ok (mk_vehicle_location secs vid vroute vdir vlat vlon vheading vspeed).

(** The loop over [body[2:-2]].  The dictionary [vehicle_locations] is kept
    as the list of its values in insertion order; its keys are their [id]s. *)
Fixpoint parse_vehicles (lines : list string)
    (vehicle_locations : list (vehicle_location_of Z))
  : result (list (vehicle_location_of Z)) :=
  match lines with
  | [] => Ok vehicle_locations
  | line :: rest =>
      loc ← parse_vehicle line;
      _ ← assert (negb (existsb (fun l => id l =? id loc) vehicle_locations));
      parse_vehicles rest (vehicle_locations ++ [loc])
  end.

(** [min(l)] of a non-empty list of integers, given as head and tail. *)
Definition min_list (x : Z) (l : list Z) : Z := foldr Z.min x l.

(** [query_timestamp - loc.timestamp] for every provisional location. *)
Fixpoint absolute_locations (query_timestamp : float)
    (vehicle_locations : list (vehicle_location_of Z))
  : result (list vehicle_location) :=
  match vehicle_locations with
  | [] => Ok []
  | loc :: rest =>
      secs ← float_of_int (timestamp loc);
      locs ← absolute_locations query_timestamp rest;
      Ok (replace_timestamp loc (query_timestamp - secs)%float :: locs)
  end.

(** [last_time] from the [<lastTime time=.../>] line. *)
Definition parse_last_time (line : string) : result float :=
  _ ← assert (startswith (strip line) (py "<lastTime time='"));
  _ ← assert (endswith (strip line) (py "'/>"));
  match split_on dquote line with
  | [_; last_time_str; _] =>
      n ← int last_time_str;
      x ← float_of_int n;
      Ok (0.001 * x)%float
  | _ => Raise ValueError
  end.

(** The first statement of the loop of [query_data]: the body from its last
    header line on. *)
Definition retained (body : list string) : result (list string) :=
  let xml_header := xml_header_from 0 body in
  start ← getitem xml_header (-1);
  Ok (slice_from body start).

(** The rest of the loop, on the retained [body]: [Ok None] when nothing is
    yielded ([continue], or no vehicle), [Ok (Some batch)] for a yielded
    [(query_timestamp, locations)].  The set of locations is given as a
    list, one entry per vehicle id, in the order of the lines. *)
Definition query_data_segment (body : list string)
  : result (option (float * list vehicle_location)) :=
  l1 ← getitem body 1;
  _ ← assert (startswith (strip l1) (py "<body copyright='"));
  _ ← assert (endswith (strip l1) (py "'>"));
  l_1 ← getitem body (-1);
  _ ← assert (String.eqb (strip l_1) "</body>");
  l2 ← getitem body 2;
  if startswith (strip l2) (py "<Error shouldRetry='") then
    l_2 ← getitem body (-2);
    _ ← assert (String.eqb (strip l_2) "</Error>");
    Ok None
  else
    l_2 ← getitem body (-2);
    last_time ← parse_last_time l_2;
    vehicle_locations ← parse_vehicles (slice body 2 (-2)) [];
    match vehicle_locations with
    | [] => Ok None
    | loc :: rest =>
        secs ← float_of_int (min_list (timestamp loc) (timestamp <$> rest));
        let query_timestamp := (last_time + secs)%float in
        locs ← absolute_locations query_timestamp vehicle_locations;
        Ok (Some (query_timestamp, locs))
    end.

(** The body of the loop of [query_data] for one [body]. *)
Definition query_data_body (body : list string)
  : result (option (float * list vehicle_location)) :=
  retained body ≫= query_data_segment.

(** A generator that may raise: what it yielded, and the exception that
    ended it, if any. *)
Definition generated (A : Type) : Type := list A * option exn.

(** [query_data] over the bodies of the archive. *)
Fixpoint query_data_from (bs : list (list string))
  : generated (float * list vehicle_location) :=
  match bs with
  | [] => ([], None)
  | body :: rest =>
      match query_data_body body with
      | Raise e => ([], Some e)
      | Ok None => query_data_from rest
      | Ok (Some batch) =>
          let '(batches, e) := query_data_from rest in (batch :: batches, e)
      end
  end.


(** ** Archive.csv and read_csv *)

(** [list(vehicle_location._fields)] *)
Definition header_fields : list string :=
  ["timestamp"; "id"; "route"; "dir"; "lat"; "lon"; "heading"; "speed"].

(** [['' if x is None else str(x) for x in loc]] *)
Definition csv_fields (loc : vehicle_location) : list string :=
  [str_float (timestamp loc); str_int (id loc); route loc; default "" (dir loc);
   str_float (lat loc); str_float (lon loc); str_int (heading loc);
   str_int (speed loc)].

(** The lines [csv] yields for the locations [locs] that [locations] yields. *)
Definition csv_lines (locs : list vehicle_location) : list string :=
  (join "," header_fields +:+ nl)
    :: ((fun loc => join "," (csv_fields loc) +:+ nl) <$> locs).


(** [writelines]: the text of a file to which the lines are written. *)
Definition writelines (lines : list string) : string := String.concat "" lines.

(** [for line in f]: the lines of a file with the text [s], each with its
    newline; a last line without one is a line too. *)
Fixpoint file_lines (s : string) : list string :=
  match s with
  | "" => []
  | String c s' =>
      if Ascii.eqb c newline then String c "" :: file_lines s'
      else
        match file_lines s' with
        | l :: ls => String c l :: ls
        | [] => [String c ""]
        end
  end.

(** The body of the loop of [read_csv] for one line: [Ok None] for the
    header line, which is skipped. *)
Definition read_csv_line (line : string) : result (option vehicle_location) :=
  let fields := split_on "," (rstrip_with (Ascii.eqb newline) line) in
  if bool_decide (fields = header_fields) then Ok None
  else
    match fields with
    | [f_timestamp; f_id; f_route; f_dir; f_lat; f_lon; f_heading; f_speed] =>
        vtimestamp ← float_of_str f_timestamp;
        vid ← int f_id;
        let vdir := if String.eqb f_dir "" then None else Some f_dir in
        vlat ← float_of_str f_lat;
        vlon ← float_of_str f_lon;
        vheading ← int f_heading;
        vspeed ← int f_speed;
        Ok (Some (mk_vehicle_location vtimestamp vid f_route vdir vlat vlon
                                      vheading vspeed))
    | _ => Raise TypeError
    end.

Fixpoint read_csv_lines (lines : list string) : generated vehicle_location :=
  match lines with
  | [] => ([], None)
  | line :: rest =>
      match read_csv_line line with
      | Raise e => ([], Some e)
      | Ok None => read_csv_lines rest
      | Ok (Some loc) =>
          let '(locs, e) := read_csv_lines rest in (loc :: locs, e)
      end
  end.

(** [read_csv] over its files, each given by its text. *)
Definition read_csv (csv_files : list string) : generated vehicle_location :=
  read_csv_lines (csv_files ≫= file_lines).

(** ** Notions used by the statements *)

(** The records of the batches in the order in which the two loops of
    [locations] visit them, each with the query timestamp of its batch. *)
Definition processing_order (batches : list (float * list vehicle_location))
  : list (float * vehicle_location) :=
  batches ≫= (fun b => pair b.1 <$> b.2).

(** The two loops of [locations] as one loop over [processing_order]. *)
Fixpoint locations_seq (recs : list (float * vehicle_location)) (d : history)
  : list event * history :=
  match recs with
  | [] => ([], d)
  | (query_timestamp, loc) :: rest =>
      let '(ev, d) := locations_step query_timestamp loc d in
      let '(evs, d) := locations_seq rest d in
      (ev ++ evs, d)
  end.

(** The last [n] elements of a list. *)
Definition last_n {A : Type} (n : nat) (l : list A) : list A :=
  drop (length l - n) l.

(** The records of one vehicle. *)
Definition of_vehicle (k : Z) (locs : list vehicle_location)
  : list vehicle_location :=
  filter (fun loc => id loc = k) locs.

(** The duplicate predicate as the specification words it. *)
Definition near_duplicate (L prev : vehicle_location) : Prop :=
  (abs (timestamp L - timestamp prev) <? 3)%float = true
  /\ route L = route prev
  /\ (abs (lat L - lat prev) <? 0.0000001)%float = true
  /\ (abs (lon L - lon prev) <? 0.0000001)%float = true
  /\ speed L = speed prev
  /\ (heading L = heading prev \/ speed L = 0).

(** A list of lines without a header line. *)
Definition no_xml_header (l : list string) : Prop :=
  Forall (fun line => is_xml_header line = false) l.

(** ** The shape of a vehicle line

    [occurs c s]: the character [c] occurs in [s]. *)
Fixpoint occurs (c : ascii) (s : string) : bool :=
  match s with
  | "" => false
  | String c' s' => Ascii.eqb c' c || occurs c s'
  end.

(** [value] is [v] between two double quotes; the lone double quote stands
    for the empty [v]. *)
Definition quoted (value v : string) : Prop :=
  (value = String dquote "" /\ v = "")
  \/ value = String dquote (v +:+ String dquote "").

(** [token] is [name=value] with one [=] sign and a quoted value: it gives
    the attribute [a] its name and its unquoted value. *)
Definition attribute (token : string) (a : string * string) : Prop :=
  exists value,
    token = a.1 +:+ String "=" value
    /\ occurs "=" a.1 = false /\ occurs "=" value = false
    /\ quoted value a.2.

(** The line [l] decodes to [raw]: trimmed, it starts with [<vehicle id=]
    and a double quote and ends with a double quote and [/>]; the text
    between [<vehicle ] and [/>], split at white space, is a list of
    attributes with distinct names; the required attributes are there with
    values that [int] and [float] accept, and [dir] is the [dirTag], if any. *)
Definition decodes_to (l : string) (raw : vehicle_location_of Z) : Prop :=
  startswith (strip l) (py "<vehicle id='") = true
  /\ endswith (strip l) (py "'/>") = true
  /\ exists pairs : list (string * string),
       Forall2 attribute (split_whitespace (str_slice (strip l) 9 (-2))) pairs
       /\ NoDup pairs.*1
       /\ (exists v, ("secsSinceReport", v) ∈ pairs /\ int v = Ok (timestamp raw))
       /\ (exists v, ("id", v) ∈ pairs /\ int v = Ok (id raw))
       /\ ("routeTag", route raw) ∈ pairs
       /\ match dir raw with
          | Some v => ("dirTag", v) ∈ pairs
          | None => "dirTag" ∉ pairs.*1
          end
       /\ (exists v, ("lat", v) ∈ pairs /\ float_of_str v = Ok (lat raw))
       /\ (exists v, ("lon", v) ∈ pairs /\ float_of_str v = Ok (lon raw))
       /\ (exists v, ("heading", v) ∈ pairs /\ int v = Ok (heading raw))
       /\ (exists v, ("speedKmHr", v) ∈ pairs /\ int v = Ok (speed raw)).

(** The dictionary [attrs] after the attributes [pairs] are stored in it. *)
Definition put_attrs (acc : gmap string string) (pairs : list (string * string))
  : gmap string string :=
  foldl (fun m a => <[a.1 := a.2]> m) acc pairs.

Definition required_keys : list string :=
  ["secsSinceReport"; "id"; "routeTag"; "lat"; "lon"; "heading"; "speedKmHr"].

(** The shape of a vehicle line when no more is asked than attributes with
    distinct names among which the required keys are. *)
Definition claimed_shape (l : string) : Prop :=
  startswith (strip l) "<vehicle " = true
  /\ endswith (strip l) "/>" = true
  /\ exists pairs : list (string * string),
       Forall2 attribute (split_whitespace (str_slice (strip l) 9 (-2))) pairs
       /\ NoDup pairs.*1
       /\ Forall (fun k => k ∈ pairs.*1) required_keys.

(** Every character of [s] satisfies [q]. *)
Definition all_in (q : ascii -> bool) (s : string) : Prop :=
  Forall (fun c => q c = true) (list_ascii_of_string s).

(** The characters of a printed finite float. *)
Definition is_float_char (c : ascii) : bool :=
  is_digit c || Ascii.eqb c "." || Ascii.eqb c "e" || Ascii.eqb c "+"
  || Ascii.eqb c "-".

(** An exponent part that [float] reads: none, or [e], a sign and digits. *)
Definition exponent_part (E : string) : Prop :=
  E = ""
  \/ exists sgn XX, E = String "e" (String sgn XX)
       /\ (sgn = "-"%char \/ sgn = "+"%char)
       /\ all_in is_digit XX /\ XX <> "".

(** ** Records that the CSV text can carry

    [text_ok s]: the text [s] has no comma and no newline. *)
Definition text_ok (s : string) : bool :=
  negb (occurs "," s) && negb (occurs newline s).

(** The text Python prints for [x] has no comma and no newline and is a
    literal that [float] accepts; [reread_float x] is the float it denotes. *)
Definition float_text_ok (x : float) : bool :=
  text_ok (str_float x)
  && match float_of_str (str_float x) with Ok _ => true | Raise _ => false end.

Definition reread_float (x : float) : float :=
  match float_of_str (str_float x) with Ok y => y | Raise _ => x end.

(** A record with each float replaced by the float its text denotes. *)
Definition reread (loc : vehicle_location) : vehicle_location :=
  mk_vehicle_location (reread_float (timestamp loc)) (id loc) (route loc)
    (dir loc) (reread_float (lat loc)) (reread_float (lon loc)) (heading loc)
    (speed loc).

(** The route and the direction have no comma and no newline, and a
    direction that is present is not empty. *)
Definition csv_safe (loc : vehicle_location) : bool :=
  text_ok (route loc)
  && match dir loc with
     | Some d => negb (String.eqb d "") && text_ok d
     | None => true
     end.


(** ** Sample records

    A vehicle standing still: two reports two seconds apart that differ in
    their heading only (and by less than [1e-7] in latitude). *)
Definition standing_first : vehicle_location :=
  mk_vehicle_location 100%float 7 "A" None 42.3601 (-71.0589) 10 0.
Definition standing_second : vehicle_location :=
  mk_vehicle_location 102%float 7 "A" None 42.36010005 (-71.0589) 95 0.

(** Five reports of one vehicle within two seconds; the fifth repeats the
    first, the others are on other routes. *)
Definition report (t : float) (r : string) : vehicle_location :=
  mk_vehicle_location t 7 r None 42.3601 (-71.0589) 10 5.
Definition five_reports : list (float * list vehicle_location) :=
  [(100, [report 100 "A"]); (101, [report 100.5 "B"]); (102, [report 101 "C"]);
   (103, [report 101.5 "D"]); (104, [report 102 "A"])]%float.

(** A report that is not newer than the one before it. *)
Definition late_report : vehicle_location :=
  mk_vehicle_location 99%float 7 "B" None 42.3601 (-71.0589) 10 5.

(** ** Sample bodies

    [line s] is a line of a capture: [s], with double quotes for its
    apostrophes, and the newline. *)
Definition line (s : string) : string := py s +:+ nl.

Definition vehicle_line : string :=
  line "<vehicle id='7' routeTag='A' dirTag='A_out' lat='42.3601' lon='-71.0589' secsSinceReport='2' predictable='true' heading='10' speedKmHr='0'/>".

(** The worked example: [lastTime] 5000 and one vehicle seen 2 seconds ago. *)
Definition worked_body : list string :=
  [line "<?xml version='1.0' encoding='utf-8' ?>";
   line "<body copyright='All data copyright MBTA 2012.'>";
   vehicle_line;
   line "<lastTime time='5000'/>";
   line "</body>"].

(** A capture that was cut short and retried: a first header and a broken
    line, then the whole of [worked_body]. *)
Definition retried_body : list string :=
  line "<?xml version='1.0' encoding='utf-8' ?>"
    :: line "<body copyright='All data copy"
    :: worked_body.

(** An error response with the [Error] element on several lines, and one
    with the element on one line. *)
Definition error_body : list string :=
  [line "<?xml version='1.0' encoding='utf-8' ?>";
   line "<body copyright='All data copyright MBTA 2012.'>";
   line "<Error shouldRetry='true'>";
   line "  Agency server cannot accept client while status is: agency name = mbta";
   line "</Error>";
   line "</body>"].

Definition error_body_one_line : list string :=
  [line "<?xml version='1.0' encoding='utf-8' ?>";
   line "<body copyright='All data copyright MBTA 2012.'>";
   line "<Error shouldRetry='true'>...</Error>";
   line "</body>"].

(** A body with [lastTime] 1001 and a vehicle seen 0 seconds ago. *)
Definition tick_body : list string :=
  [line "<?xml version='1.0' encoding='utf-8' ?>";
   line "<body copyright='All data copyright MBTA 2012.'>";
   line "<vehicle id='7' routeTag='A' dirTag='A_out' lat='42.3601' lon='-71.0589' secsSinceReport='0' predictable='true' heading='10' speedKmHr='0'/>";
   line "<lastTime time='1001'/>";
   line "</body>"].

(** Vehicle lines with [id] as the second attribute, and without [dirTag],
    and a body with the former. *)
Definition id_second_line : string :=
  line "<vehicle routeTag='A' id='7' lat='42.3601' lon='-71.0589' secsSinceReport='2' heading='10' speedKmHr='0'/>".

Definition no_dir_line : string :=
  line "<vehicle id='7' routeTag='A' lat='42.3601' lon='-71.0589' secsSinceReport='2' heading='10' speedKmHr='0'/>".

Definition id_second_body : list string :=
  [line "<?xml version='1.0' encoding='utf-8' ?>";
   line "<body copyright='All data copyright MBTA 2012.'>";
   vehicle_line;
   id_second_line;
   line "<lastTime time='5000'/>";
   line "</body>"].

(** ** Archive.__init__ and open_maybe_compressed: how a path is read

    What [open_maybe_compressed] opens a file with: [gzip.open],
    [bz2.BZ2File] or the built-in [open]. *)
Inductive opened : Type :=
  | GzipFile
  | BZ2File
  | PlainFile.

Definition open_maybe_compressed (filename : string) : opened :=
  if endswith filename ".gz" then GzipFile
  else if endswith filename ".bz2" then BZ2File
  else PlainFile.

(** Where the lines of an [Archive] come from: the output of the [tar]
    subprocess, or an opened file. *)
Inductive archive_source : Type :=
  | TarOutput
  | OpenedFile (o : opened).

(** The last two branches of [Archive.__init__]: the ones taken for a
    string [f] that is not the path of a directory. *)
Definition Archive_init_path (f : string) : result archive_source :=
  if endswith f ".tar" || endswith f ".tar.gz" || endswith f ".tar.bz2"
  then Ok TarOutput
  else
    _ ← assert (negb (occurs "." f) || (endswith f ".gz" || endswith f ".bz2"));
    Ok (OpenedFile (open_maybe_compressed f)).

(** ** Notions used by the further properties

    The three tests of [bodies] on a line. *)
Definition is_html_start (l : string) : bool := String.eqb (strip l) "<html>".
Definition is_html_end (l : string) : bool := String.eqb (strip l) "</html>".
Definition is_body_end (l : string) : bool := String.eqb (strip l) "</body>".

(** A frame: lines up to and including the first closing line, the first of
    which does not open an error page. *)
Definition framed (body : list string) : Prop :=
  exists init last,
    body = init ++ [last]
    /\ is_body_end last = true
    /\ Forall (fun l => is_body_end l = false) init
    /\ is_html_start (hd last init) = false.

(** The buffer of [bodies] between two lines: an unfinished error page, or
    lines without a closing line that do not open an error page. *)
Definition buffer_ok (acc : list string) : Prop :=
  (exists first acc', acc = first :: acc' /\ is_html_start first = true)
  \/ (Forall (fun l => is_body_end l = false) acc
      /\ forall l, is_html_start (hd l acc) = true -> acc = []).


(** The warnings a run logs, in order. *)
Definition warnings (evs : list event) : list warning :=
  omap (fun e => match e with Warn w => Some w | Yield _ => None end) evs.

(** Every warning is followed at once by the record it is about. *)
Definition announced (evs : list event) : Prop :=
  forall (i : nat) w, evs !! i = Some (Warn w) ->
    exists qt loc, w = out_of_order_warning qt loc /\ evs !! S i = Some (Yield loc).

(** Each record is newer than the one before it: the comparison that
    [locations] makes before it warns is false for every adjacent pair. *)
Definition ascending (l : list vehicle_location) : Prop :=
  forall A (p L : vehicle_location) B,
    l = A ++ p :: L :: B -> (timestamp L <=? timestamp p)%float = false.

(** The number of occurrences of [c] in [s]. *)
Fixpoint count_char (c : ascii) (s : string) : nat :=
  match s with
  | "" => 0
  | String c' s' => ((if Ascii.eqb c' c then 1 else 0) + count_char c s')%nat
  end.

(** A record whose route and direction have no newline. *)
Definition one_line (loc : vehicle_location) : Prop :=
  occurs newline (route loc) = false
  /\ occurs newline (default "" (dir loc)) = false.

(** A text without white space. *)
Definition no_space (s : string) : Prop := all_in (fun c => negb (is_space c)) s.

(** ** Further samples

    An error page, with a [</body>] line of its own. *)
Definition error_page : list string :=
  [line "<html>"; line "<body>"; line "503 Service Unavailable"; line "</body>";
   line "</html>"].

(** A second vehicle, a body with both, and the records of its batch. *)
Definition second_vehicle_line : string :=
  line "<vehicle id='8' routeTag='B' lat='42.25' lon='-71.5' secsSinceReport='5' predictable='true' heading='20' speedKmHr='3'/>".

Definition two_vehicle_body : list string :=
  [line "<?xml version='1.0' encoding='utf-8' ?>";
   line "<body copyright='All data copyright MBTA 2012.'>";
   vehicle_line;
   second_vehicle_line;
   line "<lastTime time='5000'/>";
   line "</body>"].

Definition first_vehicle : vehicle_location :=
  mk_vehicle_location 5%float 7 "A" (Some "A_out") 42.3601 (-71.0589) 10 0.
Definition second_vehicle : vehicle_location :=
  mk_vehicle_location 2%float 8 "B" None 42.25 (-71.5) 20 3.


(** A vehicle line without [heading]. *)
Definition no_heading_line : string :=
  line "<vehicle id='7' routeTag='A' lat='42.3601' lon='-71.0589' secsSinceReport='2' speedKmHr='0'/>".

(** A record whose route has a comma. *)
Definition comma_route_report : vehicle_location :=
  mk_vehicle_location 100%float 7 "A,B" None 42.5 (-71.25) 10 5.

(** * Properties of the de-duplicating stream *)

Section Deduplicator.

Implicit Types (d : history) (loc : vehicle_location) (k : Z).

Lemma is_duplicate_spec loc prev :
  is_duplicate loc prev = true <-> near_duplicate loc prev.
Proof.
  unfold is_duplicate, near_duplicate.
  rewrite !andb_true_iff, orb_true_iff, !Z.eqb_eq, String.eqb_eq.
  tauto.
Qed.

Lemma existsb_duplicate loc prevs :
  existsb (is_duplicate loc) prevs = true
  <-> exists prev, prev ∈ prevs /\ near_duplicate loc prev.
Proof.
  rewrite existsb_exists. split; intros (prev & Hin & Hdup); exists prev.
  - split; [now apply list_elem_of_In | now apply is_duplicate_spec].
  - split; [now apply list_elem_of_In | now apply is_duplicate_spec].
Qed.

Lemma history_of_insert d k prevs k' :
  history_of (<[k := prevs]> d) k' = if decide (k = k') then prevs else history_of d k'.
Proof.
  unfold history_of. rewrite lookup_insert. now destruct (decide (k = k')).
Qed.

Lemma setdefault_fst d k : (setdefault d k).1 = history_of d k.
Proof. unfold setdefault, history_of. now destruct (d !! k). Qed.

Lemma setdefault_snd d k k' :
  history_of (setdefault d k).2 k' = history_of d k'.
Proof.
  unfold setdefault. destruct (d !! k) eqn:E; simpl; [reflexivity|].
  rewrite history_of_insert. destruct (decide (k = k')) as [<-|]; [|reflexivity].
  unfold history_of. now rewrite E.
Qed.

(** The two outcomes of one step. *)
Lemma locations_step_rejected qt loc d :
  existsb (is_duplicate loc) (history_of d (id loc)) = true ->
  locations_step qt loc d = ([], (setdefault d (id loc)).2).
Proof.
  intros H. unfold locations_step.
  rewrite <- setdefault_fst in H. destruct (setdefault d (id loc)) as [prevs d'].
  simpl in H. now rewrite H.
Qed.

Lemma locations_step_accepted qt loc d :
  existsb (is_duplicate loc) (history_of d (id loc)) = false ->
  locations_step qt loc d =
    (out_of_order qt loc (history_of d (id loc)) ++ [Yield loc],
     <[id loc := track (history_of d (id loc)) loc]> (setdefault d (id loc)).2).
Proof.
  intros H. unfold locations_step.
  rewrite <- !setdefault_fst in *. destruct (setdefault d (id loc)) as [prevs d'].
  simpl in *. now rewrite H.
Qed.

Lemma yielded_app evs evs' : yielded (evs ++ evs') = yielded evs ++ yielded evs'.
Proof. apply omap_app. Qed.

Lemma yielded_out_of_order qt loc prevs : yielded (out_of_order qt loc prevs) = [].
Proof.
  unfold out_of_order. destruct (last prevs); [|reflexivity].
  now destruct (_ <=? _)%float.
Qed.

(** What a step yields and how it leaves the histories. *)
Lemma locations_step_yielded qt loc d :
  yielded (locations_step qt loc d).1 =
    if existsb (is_duplicate loc) (history_of d (id loc)) then [] else [loc].
Proof.
  destruct (existsb _ _) eqn:E.
  - now rewrite locations_step_rejected.
  - rewrite locations_step_accepted by assumption. simpl.
    now rewrite yielded_app, yielded_out_of_order.
Qed.

Lemma locations_step_history qt loc d k :
  history_of (locations_step qt loc d).2 k =
    if existsb (is_duplicate loc) (history_of d (id loc)) then history_of d k
    else if decide (id loc = k) then track (history_of d k) loc
    else history_of d k.
Proof.
  destruct (existsb _ _) eqn:E.
  - rewrite locations_step_rejected by assumption. apply setdefault_snd.
  - rewrite locations_step_accepted by assumption. simpl.
    rewrite history_of_insert.
    destruct (decide (id loc = k)) as [<-|]; [reflexivity | apply setdefault_snd].
Qed.

Lemma locations_seq_app recs recs' d :
  locations_seq (recs ++ recs') d =
    let '(evs, d1) := locations_seq recs d in
    let '(evs', d2) := locations_seq recs' d1 in
    (evs ++ evs', d2).
Proof.
  revert d. induction recs as [|[qt loc] recs IH]; intros d; simpl.
  - now destruct (locations_seq recs' d).
  - destruct (locations_step qt loc d) as [ev d1].
    rewrite IH. destruct (locations_seq recs d1) as [evs d2].
    destruct (locations_seq recs' d2) as [evs' d3].
    now rewrite app_assoc.
Qed.

Lemma locations_batch_seq qt locs d :
  locations_batch qt locs d = locations_seq (pair qt <$> locs) d.
Proof.
  revert d. induction locs as [|loc locs IH]; intros d; simpl; [reflexivity|].
  destruct (locations_step qt loc d) as [ev d1]. now rewrite IH.
Qed.

Lemma locations_from_seq batches d :
  locations_from batches d = locations_seq (processing_order batches) d.
Proof.
  revert d. induction batches as [|[qt locs] batches IH]; intros d; [reflexivity|].
  change (processing_order ((qt, locs) :: batches))
    with ((pair qt <$> locs) ++ processing_order batches).
  rewrite locations_seq_app. simpl.
  rewrite locations_batch_seq. destruct (locations_seq _ d) as [ev d1].
  now rewrite IH.
Qed.

Lemma locations_seq_cons qt loc recs d :
  locations_seq ((qt, loc) :: recs) d =
    ((locations_step qt loc d).1 ++ (locations_seq recs (locations_step qt loc d).2).1,
     (locations_seq recs (locations_step qt loc d).2).2).
Proof.
  simpl. destruct (locations_step qt loc d) as [ev d1]. cbn [fst snd].
  now destruct (locations_seq recs d1).
Qed.

Lemma locations_seq_snoc recs qt loc d :
  locations_seq (recs ++ [(qt, loc)]) d =
    ((locations_seq recs d).1 ++ (locations_step qt loc (locations_seq recs d).2).1,
     (locations_step qt loc (locations_seq recs d).2).2).
Proof.
  rewrite locations_seq_app. destruct (locations_seq recs d) as [evs d1].
  simpl. destruct (locations_step qt loc d1) as [ev d2]. simpl.
  now rewrite app_nil_r.
Qed.

Lemma processing_order_app batches batches' :
  processing_order (batches ++ batches') =
    processing_order batches ++ processing_order batches'.
Proof. apply bind_app. Qed.

Lemma processing_order_snd batches :
  (processing_order batches).*2 = batches ≫= snd.
Proof.
  induction batches as [|[qt locs] batches IH]; [reflexivity|].
  change (processing_order ((qt, locs) :: batches))
    with ((pair qt <$> locs) ++ processing_order batches).
  rewrite fmap_app, IH, <- list_fmap_compose. simpl. f_equal.
  clear. induction locs as [|loc locs IH]; [reflexivity|].
  simpl. f_equal. exact IH.
Qed.

(** *** The bounded history *)

Lemma last_n_short {A} n (l : list A) : (length l <= n)%nat -> last_n n l = l.
Proof. intros H. unfold last_n. now replace (length l - n)%nat with 0%nat by lia. Qed.

Lemma last_n_length {A} n (l : list A) : (length (last_n n l) <= n)%nat.
Proof. unfold last_n. rewrite length_drop. lia. Qed.

Lemma last_n_app {A} n (l l' : list A) :
  last_n n (last_n n l ++ l') = last_n n (l ++ l').
Proof.
  destruct (decide (length l <= n)%nat) as [Hle|Hgt].
  - now rewrite (last_n_short n l).
  - unfold last_n. rewrite !length_app, length_drop.
    replace (length l - (length l - n) + length l' - n)%nat with (length l') by lia.
    replace (length l + length l' - n)%nat
      with ((length l - n) + length l')%nat by lia.
    rewrite <- drop_drop. now rewrite (drop_app_le l) by lia.
Qed.

Lemma track_last_n prevs loc :
  (length prevs <= 3)%nat -> track prevs loc = last_n 3 (prevs ++ [loc]).
Proof.
  intros H. unfold track, last_n. rewrite length_app. simpl.
  destruct (3 <? Z.of_nat (length prevs + 1)) eqn:E.
  - apply Z.ltb_lt in E. now replace (length prevs + 1 - 3)%nat with 1%nat by lia.
  - apply Z.ltb_ge in E. now replace (length prevs + 1 - 3)%nat with 0%nat by lia.
Qed.

Lemma of_vehicle_app k locs locs' :
  of_vehicle k (locs ++ locs') = of_vehicle k locs ++ of_vehicle k locs'.
Proof. apply filter_app. Qed.

Lemma of_vehicle_singleton k loc :
  of_vehicle k [loc] = if decide (id loc = k) then [loc] else [].
Proof.
  unfold of_vehicle. rewrite filter_cons, filter_nil.
  now destruct (decide (id loc = k)).
Qed.

(** After any sequence of steps from histories of at most three entries,
    the history of a vehicle is the last three of its old history followed
    by its yielded records. *)
Lemma locations_seq_history recs : forall d k,
  (length (history_of d k) <= 3)%nat ->
  history_of (locations_seq recs d).2 k =
    last_n 3 (history_of d k ++ of_vehicle k (yielded (locations_seq recs d).1)).
Proof.
  induction recs as [|[qt loc] recs IH]; intros d k Hlen.
  - simpl. rewrite app_nil_r. now rewrite last_n_short.
  - rewrite locations_seq_cons. cbn [fst snd].
    rewrite yielded_app, of_vehicle_app, locations_step_yielded.
    rewrite IH; rewrite locations_step_history.
    + destruct (existsb _ _); [reflexivity|].
      rewrite of_vehicle_singleton.
      destruct (decide (id loc = k)); [|reflexivity].
      rewrite track_last_n by assumption.
      now rewrite last_n_app, <- app_assoc.
    + destruct (existsb _ _); [assumption|].
      destruct (decide (id loc = k)); [|assumption].
      rewrite track_last_n by assumption. apply last_n_length.
Qed.

Lemma history_of_empty k : history_of ∅ k = [].
Proof. unfold history_of. now rewrite lookup_empty. Qed.

Lemma locations_history batches k :
  history_of (locations batches).2 k =
    last_n 3 (of_vehicle k (yielded (locations batches).1)).
Proof.
  unfold locations. rewrite locations_from_seq.
  rewrite locations_seq_history; rewrite history_of_empty; [reflexivity | simpl; lia].
Qed.

(** *** Re-running the stream over its own output *)


(** *** The yielded records are a subsequence of the consumed ones *)

Lemma locations_seq_sublist recs d :
  yielded (locations_seq recs d).1 `sublist_of` recs.*2.
Proof.
  revert d. induction recs as [|[qt loc] recs IH]; intros d; [constructor|].
  rewrite locations_seq_cons. cbn [fst].
  rewrite yielded_app, locations_step_yielded.
  destruct (existsb _ _); simpl.
  - apply sublist_cons, IH.
  - apply sublist_skip, IH.
Qed.

(** *** The claims about the Deduplicator *)

(** C1. A record [L] is rejected (the step logs nothing, yields nothing and
    leaves the history of [L]'s vehicle as it was) if and only if some entry
    [prev] of that history is a near duplicate of [L]: timestamps less than
    3 seconds apart, same route, latitudes and longitudes less than [1e-7]
    apart, same speed, and same heading or speed 0.  Otherwise [L] is
    yielded and appended.  In particular, of two records of one vehicle
    with speed 0, the same route, positions within [1e-7] and timestamps
    within 3 seconds, with headings 10 and 95, the second is rejected. *)
Theorem rejected_iff_near_duplicate :
  (forall qt (L : vehicle_location) d,
     ((exists prev, prev ∈ history_of d (id L) /\ near_duplicate L prev)
      <-> (locations_step qt L d).1 = []
          /\ history_of (locations_step qt L d).2 (id L) = history_of d (id L))
     /\ (~ (exists prev, prev ∈ history_of d (id L) /\ near_duplicate L prev)
         -> yielded (locations_step qt L d).1 = [L]
            /\ history_of (locations_step qt L d).2 (id L)
               = track (history_of d (id L)) L))
  /\ (forall qa qb (a b : vehicle_location),
       id b = id a -> route b = route a -> speed a = 0 -> speed b = 0 ->
       heading a = 10 -> heading b = 95 ->
       (abs (lat b - lat a) <? 0.0000001)%float = true ->
       (abs (lon b - lon a) <? 0.0000001)%float = true ->
       (abs (timestamp b - timestamp a) <? 3)%float = true ->
       yielded (locations [(qa, [a]); (qb, [b])]).1 = [a]
       /\ history_of (locations [(qa, [a]); (qb, [b])]).2 (id a) = [a]).
Proof.
  split.
  - intros qt L d. rewrite <- existsb_duplicate. split; [split|].
    + intros Hdup. rewrite locations_step_rejected by assumption.
      split; [reflexivity | apply setdefault_snd].
    + intros [Hnil _]. destruct (existsb _ _) eqn:E; [reflexivity|].
      rewrite locations_step_accepted in Hnil by assumption.
      simpl in Hnil. now apply app_eq_nil in Hnil as [_ ?].
    + intros Hnot. apply not_true_is_false in Hnot.
      rewrite locations_step_yielded, locations_step_history, Hnot.
      now rewrite decide_True.
  - intros qa qb a b Hid Hroute Hsa Hsb _ _ Hlat Hlon Ht.
    assert (Hdup : existsb (is_duplicate b) [a] = true).
    { apply existsb_duplicate. exists a. split; [apply list_elem_of_here|].
      unfold near_duplicate. rewrite Hsa, Hsb. auto 10. }
    unfold locations. rewrite locations_from_seq.
    change (processing_order [(qa, [a]); (qb, [b])]) with [(qa, a); (qb, b)].
    rewrite !locations_seq_cons. cbn [locations_seq fst snd].
    rewrite app_nil_r, yielded_app, !locations_step_yielded.
    rewrite !locations_step_history, !history_of_empty. cbn [existsb].
    rewrite Hid, decide_True by reflexivity.
    change (track [] a) with [a]. now rewrite Hdup.
Qed.

Lemma rejected_iff_near_duplicate_witness :
  yielded (locations [(100%float, [standing_first]);
                      (102%float, [standing_second])]).1 = [standing_first]
  /\ history_of (locations [(100%float, [standing_first]);
                            (102%float, [standing_second])]).2 7
     = [standing_first].
Proof.
  apply (proj2 rejected_iff_near_duplicate 100%float 102%float
               standing_first standing_second); reflexivity.
Defined.

(** C4. After every prefix of the processing order, the history kept for
    a vehicle has at most 3 entries and is the last 3 records yielded for
    that vehicle so far, in the order in which they were yielded; the run
    over all batches passes through each of these states.  So a further
    record is compared with these 3 only; 4 accepted records of one vehicle
    leave the last 3; and in [five_reports] the 5th record is a near
    duplicate of the 1st and is accepted all the same. *)
Theorem history_is_last_three_accepted :
  (forall batches n k,
     history_of (locations_seq (take n (processing_order batches)) ∅).2 k
       = last_n 3 (of_vehicle k
           (yielded (locations_seq (take n (processing_order batches)) ∅).1))
     /\ (length (history_of
           (locations_seq (take n (processing_order batches)) ∅).2 k) <= 3)%nat
     /\ locations batches
        = ((locations_seq (take n (processing_order batches)) ∅).1
             ++ (locations_seq (drop n (processing_order batches))
                   (locations_seq (take n (processing_order batches)) ∅).2).1,
           (locations_seq (drop n (processing_order batches))
              (locations_seq (take n (processing_order batches)) ∅).2).2))
  /\ (forall batches k,
       history_of (locations batches).2 k
         = last_n 3 (of_vehicle k (yielded (locations batches).1)))
  /\ (forall batches qt (L : vehicle_location),
       yielded (locations (batches ++ [(qt, [L])])).1
         = yielded (locations batches).1
           ++ (if existsb (is_duplicate L)
                    (last_n 3 (of_vehicle (id L) (yielded (locations batches).1)))
               then [] else [L]))
  /\ (forall q1 q2 q3 q4 (r1 r2 r3 r4 : vehicle_location),
       id r2 = id r1 -> id r3 = id r1 -> id r4 = id r1 ->
       yielded (locations [(q1, [r1]); (q2, [r2]); (q3, [r3]); (q4, [r4])]).1
         = [r1; r2; r3; r4] ->
       history_of (locations [(q1, [r1]); (q2, [r2]); (q3, [r3]); (q4, [r4])]).2
                  (id r1)
         = [r2; r3; r4])
  /\ (is_duplicate (report 102 "A") (report 100 "A") = true
      /\ history_of (locations (take 4 five_reports)).2 7
         = [report 100.5 "B"; report 101 "C"; report 101.5 "D"]
      /\ yielded (locations five_reports).1 = five_reports ≫= snd).
Proof.
  split; [|split; [|split; [|split]]].
  - intros batches n k. split; [|split].
    + rewrite locations_seq_history; rewrite history_of_empty;
        [reflexivity | simpl; lia].
    + rewrite locations_seq_history; rewrite history_of_empty;
        [apply last_n_length | simpl; lia].
    + unfold locations. rewrite locations_from_seq.
      rewrite <- (take_drop n (processing_order batches)) at 1.
      rewrite locations_seq_app.
      destruct (locations_seq (take n _) ∅) as [evs d1]. cbn [fst snd].
      now destruct (locations_seq (drop n _) d1).
  - apply locations_history.
  - intros batches qt L. rewrite <- locations_history.
    unfold locations. rewrite !locations_from_seq, processing_order_app.
    change (processing_order [(qt, [L])]) with [(qt, L)].
    rewrite locations_seq_snoc. cbn [fst].
    now rewrite yielded_app, locations_step_yielded.
  - intros q1 q2 q3 q4 r1 r2 r3 r4 H2 H3 H4 Hy.
    rewrite locations_history, Hy. unfold of_vehicle.
    rewrite !filter_cons, filter_nil, H2, H3, H4.
    now rewrite !decide_True.
  - repeat split; vm_compute; reflexivity.
Qed.

Lemma history_is_last_three_accepted_witness :
  history_of (locations (take 4 five_reports)).2 7
    = [report 100.5 "B"; report 101 "C"; report 101.5 "D"].
Proof.
  apply (proj1 (proj2 (proj2 (proj2 history_is_last_three_accepted)))
           100 101 102 103 (report 100 "A"))%float; reflexivity.
Defined.





(** C10. The records a run yields are a subsequence of the records it
    consumes (the records of the batches in processing order): each yielded
    record is a consumed record, unchanged, yielded at most once, and the
    yielded records keep the order in which they were consumed. *)
Theorem yielded_is_subsequence_of_consumed
    (batches : list (float * list vehicle_location)) :
  yielded (locations batches).1 `sublist_of` batches ≫= snd.
Proof.
  unfold locations. rewrite locations_from_seq, <- processing_order_snd.
  apply locations_seq_sublist.
Qed.

End Deduplicator.

(** * Properties of the response parser *)

Section ResponseParser.

Implicit Types (body pre post : list string) (s p : string) (c sep : ascii)
  (attrs : gmap string string) (pairs : list (string * string)).

(** *** Strings *)
Lemma append_nil_l s : "" +:+ s = s.
Proof. reflexivity. Qed.

Lemma append_cons c s p : String c s +:+ p = String c (s +:+ p).
Proof. reflexivity. Qed.

Lemma substring_all p : substring 0 (String.length p) p = p.
Proof. induction p as [|c p IH]; simpl; [reflexivity | now rewrite IH]. Qed.

Lemma substring_append_r s p :
  substring (String.length s) (String.length p) (s +:+ p) = p.
Proof. induction s as [|c s IH]; simpl; [apply substring_all | exact IH]. Qed.

Lemma substring_split s : forall n m,
  (n <= String.length s)%nat -> (n + m = String.length s)%nat ->
  s = substring 0 n s +:+ substring n m s.
Proof.
  induction s as [|c s IH]; intros n m Hn Hm; simpl in *.
  - destruct n; [|lia]. now destruct m.
  - destruct n as [|n]; simpl.
    + destruct m as [|m]; [lia|]. injection Hm as Hm. subst m.
      simpl. now rewrite substring_all.
    + rewrite append_cons. f_equal. apply IH; lia.
Qed.

Lemma string_length_append s p :
  String.length (s +:+ p) = (String.length s + String.length p)%nat.
Proof.
  induction s as [|c s IH]; [reflexivity|].
  rewrite append_cons. simpl. now rewrite IH.
Qed.

(** [endswith] and [startswith] say what their names say. *)
Lemma endswith_spec s p : endswith s p = true <-> exists q, s = q +:+ p.
Proof.
  unfold endswith. rewrite andb_true_iff, Nat.leb_le, String.eqb_eq. split.
  - intros [Hle Hsub]. exists (substring 0 (String.length s - String.length p) s).
    pose proof (substring_split s (String.length s - String.length p)
                  (String.length p)) as E.
    rewrite Hsub in E. apply E; lia.
  - intros [q ->]. rewrite string_length_append. split; [lia|].
    replace (String.length q + String.length p - String.length p)%nat
      with (String.length q) by lia.
    apply substring_append_r.
Qed.

Lemma startswith_spec s p : startswith s p = true <-> exists q, s = p +:+ q.
Proof.
  unfold startswith. revert s. induction p as [|c p IH]; intros s.
  - split; [intros _; now exists s | now destruct s].
  - destruct s as [|c' s]; simpl.
    + split; [discriminate | intros [q ?]; discriminate].
    + destruct (Ascii.ascii_dec c c') as [->|Hne].
      * rewrite IH. split; intros [q Hq]; exists q.
        -- now rewrite Hq.
        -- rewrite append_cons in Hq. now injection Hq.
      * split; [discriminate|]. intros [q Hq].
        rewrite append_cons in Hq. injection Hq as Hc _. now elim Hne.
Qed.

(** *** Indexing *)

Lemma getitem_last {A} (l : list A) x : getitem (l ++ [x]) (-1) = Ok x.
Proof.
  unfold getitem. rewrite length_app. simpl.
  replace (-1 + Z.of_nat (length l + 1)) with (Z.of_nat (length l)) by lia.
  destruct (Z.ltb_spec (Z.of_nat (length l)) 0); [lia|].
  rewrite Nat2Z.id. now rewrite list_lookup_middle.
Qed.

Lemma getitem_nil {A} i : getitem (@nil A) i = Raise IndexError.
Proof.
  unfold getitem. simpl. destruct (i <? 0); destruct (_ <? 0); try reflexivity.
Qed.

Lemma slice_from_app {A} (l l' : list A) :
  slice_from (l ++ l') (Z.of_nat (length l)) = l'.
Proof.
  unfold slice_from, clamp. rewrite length_app.
  destruct (Z.ltb_spec (Z.of_nat (length l)) 0); [lia|].
  rewrite Z.min_l by lia. rewrite Nat2Z.id. now rewrite drop_app_length.
Qed.

(** *** The retained segment *)


Lemma xml_header_from_app i body body' :
  xml_header_from i (body ++ body') =
    xml_header_from i body ++ xml_header_from (i + Z.of_nat (length body)) body'.
Proof.
  revert i. induction body as [|l body IH]; intros i; simpl.
  - now rewrite Z.add_0_r.
  - rewrite IH. replace (i + 1 + Z.of_nat (length body))
      with (i + Z.pos (Pos.of_succ_nat (length body))) by lia.
    now destruct (is_xml_header l).
Qed.

Lemma xml_header_from_none i body :
  no_xml_header body -> xml_header_from i body = [].
Proof.
  intros H. revert i. induction H as [|l body Hl _ IH]; intros i; simpl;
    [reflexivity|]. now rewrite Hl.
Qed.

Lemma retained_last_header pre l post :
  is_xml_header l = true -> no_xml_header post ->
  retained (pre ++ l :: post) = Ok (l :: post).
Proof.
  intros Hl Hpost. unfold retained.
  rewrite xml_header_from_app. simpl. rewrite Hl.
  rewrite (xml_header_from_none _ post) by assumption.
  rewrite getitem_last. rewrite Z.add_0_l. cbn [mbind result_bind].
  now rewrite slice_from_app.
Qed.

Lemma retained_no_header body :
  no_xml_header body -> retained body = Raise IndexError.
Proof.
  intros H. unfold retained. rewrite xml_header_from_none by assumption.
  now rewrite getitem_nil.
Qed.



(** *** The claims about the retained segment and error batches *)

(** C3. A header line is a line whose text, trimmed at its edges, ends with
    the header marker.  When [l] is the last header line of a body, the
    parser keeps the body from [l] on and decodes that part only: the result
    is the result for the body without the lines before [l].  A body with
    no header line fails ([IndexError]).  In particular [retried_body], with
    two header lines, decodes as [worked_body], its part from the second
    header on. *)
Theorem parsing_starts_at_last_header :
  (forall l, is_xml_header l = true
             <-> exists q, strip l = q +:+ xml_header_marker)
  /\ (forall pre l post,
       is_xml_header l = true -> no_xml_header post ->
       retained (pre ++ l :: post) = Ok (l :: post)
       /\ query_data_body (pre ++ l :: post) = query_data_segment (l :: post)
       /\ query_data_body (pre ++ l :: post) = query_data_body (l :: post))
  /\ (forall body, no_xml_header body -> query_data_body body = Raise IndexError)
  /\ (query_data_body retried_body = query_data_body worked_body
      /\ query_data_body retried_body
         = Ok (Some (7%float,
                     [mk_vehicle_location 5%float 7 "A" (Some "A_out")
                        42.3601 (-71.0589) 10 0]))).
Proof.
  split; [|split; [|split]].
  - intros l. apply endswith_spec.
  - intros pre l post Hl Hpost.
    assert (H1 := retained_last_header pre l post Hl Hpost).
    assert (H2 := retained_last_header [] l post Hl Hpost).
    unfold query_data_body. simpl in H2. rewrite H1, H2. auto.
  - intros body H. unfold query_data_body.
    now rewrite retained_no_header.
  - split; vm_compute; reflexivity.
Qed.

Lemma parsing_starts_at_last_header_witness :
  query_data_body retried_body = query_data_body worked_body.
Proof.
  apply (proj1 (proj2 parsing_starts_at_last_header)
           (take 2 retried_body) (line "<?xml version='1.0' encoding='utf-8' ?>")
           (drop 1 worked_body)).
  - reflexivity.
  - repeat constructor.
Defined.

(** C6, as amended.  Let the retained segment pass the checks of its second
    and of its last line, and let its third line, trimmed, start with
    [<Error shouldRetry=] and a double quote.  If the second-to-last line,
    trimmed, is [</Error>], the parser yields no batch and raises nothing,
    and [query_data] goes on with the next bodies; otherwise parsing fails
    with an [AssertionError], which ends [query_data]. *)
Theorem error_batch_is_skipped body seg l1 l_1 l2 l_2 rest :
  retained body = Ok seg ->
  getitem seg 1 = Ok l1 ->
  startswith (strip l1) (py "<body copyright='") = true ->
  endswith (strip l1) (py "'>") = true ->
  getitem seg (-1) = Ok l_1 ->
  strip l_1 = "</body>" ->
  getitem seg 2 = Ok l2 ->
  startswith (strip l2) (py "<Error shouldRetry='") = true ->
  getitem seg (-2) = Ok l_2 ->
  (strip l_2 = "</Error>" ->
     query_data_body body = Ok None
     /\ query_data_from (body :: rest) = query_data_from rest)
  /\ (strip l_2 <> "</Error>" ->
     query_data_body body = Raise AssertionError
     /\ query_data_from (body :: rest) = ([], Some AssertionError)).
Proof.
  intros Hseg H1 H1a H1b H_1 H_1a H2 H2a H_2.
  assert (Hbody : query_data_body body
                  = (_ ← assert (String.eqb (strip l_2) "</Error>"); Ok None)).
  { unfold query_data_body. rewrite Hseg. cbn [mbind result_bind].
    unfold query_data_segment. rewrite H1. cbn [mbind result_bind].
    rewrite H1a, H1b. cbn [mbind result_bind assert].
    rewrite H_1. cbn [mbind result_bind]. rewrite H_1a.
    cbn [mbind result_bind assert String.eqb]. 
    rewrite H2. cbn [mbind result_bind]. rewrite H2a, H_2. reflexivity. }
  split; intros Hl.
  - assert (E : query_data_body body = Ok None).
    { rewrite Hbody, Hl. reflexivity. }
    split; [exact E|]. simpl. now rewrite E.
  - assert (E : query_data_body body = Raise AssertionError).
    { rewrite Hbody. apply String.eqb_neq in Hl. now rewrite Hl. }
    split; [exact E|]. simpl. now rewrite E.
Qed.

Lemma error_batch_is_skipped_witness :
  query_data_body error_body = Ok None
  /\ query_data_from [error_body; worked_body] = query_data_from [worked_body].
Proof.
  apply (error_batch_is_skipped error_body error_body
           (line "<body copyright='All data copyright MBTA 2012.'>")
           (line "</body>") (line "<Error shouldRetry='true'>")
           (line "</Error>") [worked_body]); reflexivity.
Defined.

(** An [Error] element written on one line is itself the second-to-last
    line of its body, and is not [</Error>]: the body fails. *)
Lemma one_line_error_body_raises :
  retained error_body_one_line = Ok error_body_one_line
  /\ getitem error_body_one_line 2
     = Ok (line "<Error shouldRetry='true'>...</Error>")
  /\ query_data_body error_body_one_line = Raise AssertionError.
Proof. repeat split; vm_compute; reflexivity. Qed.

(** *** Inverting a successful run *)

Lemma bind_Ok {A B} (r : result A) (k : A -> result B) b :
  r ≫= k = Ok b <-> exists a, r = Ok a /\ k a = Ok b.
Proof.
  split.
  - destruct r as [a|e]; [now exists a | discriminate].
  - now intros (a & -> & H).
Qed.

Lemma assert_Ok (b : bool) u : assert b = Ok u <-> b = true.
Proof. destruct b, u; split; (reflexivity || discriminate). Qed.

Ltac inv_ok H :=
  repeat match type of H with
  | mbind _ (assert _) = Ok _ =>
      let c := fresh "Hc" in
      apply bind_Ok in H as (? & c & H); apply assert_Ok in c
  | mbind _ _ = Ok _ =>
      let x := fresh "x" in let e := fresh "E" in
      apply bind_Ok in H as (x & e & H)
  end.

Lemma parse_vehicles_spec lines : forall acc res,
  parse_vehicles lines acc = Ok res ->
  exists raws, res = acc ++ raws
    /\ Forall2 (fun l raw => parse_vehicle l = Ok raw) lines raws.
Proof.
  induction lines as [|l lines IH]; intros acc res H; simpl in H.
  - injection H as <-. exists []. now rewrite app_nil_r.
  - inv_ok H. apply IH in H as (raws & -> & Hall).
    exists (x :: raws). rewrite <- app_assoc. split; [reflexivity|].
    now constructor.
Qed.

Lemma parse_vehicles_fails lines : forall acc l,
  l ∈ lines -> ~ succeeds (parse_vehicle l) ->
  ~ succeeds (parse_vehicles lines acc).
Proof.
  intros acc l Hin Hl [res H]. apply parse_vehicles_spec in H as (raws & _ & Hall).
  apply list_elem_of_lookup in Hin as [i Hi].
  destruct (Forall2_lookup_l _ _ _ _ _ Hall Hi) as (raw & _ & Hraw).
  apply Hl. now exists raw.
Qed.

Lemma min_list_spec x l :
  min_list x l ∈ x :: l /\ forall y, y ∈ x :: l -> min_list x l <= y.
Proof.
  unfold min_list. induction l as [|z l [IHin IHle]]; simpl.
  - split; [apply list_elem_of_here|]. intros y Hy.
    apply list_elem_of_singleton in Hy. lia.
  - split.
    + destruct (Z.min_spec z (foldr Z.min x l)) as [[_ ->]|[_ ->]].
      * apply list_elem_of_further, list_elem_of_here.
      * apply elem_of_cons in IHin as [->|Hin]; [apply list_elem_of_here|].
        now apply list_elem_of_further, list_elem_of_further.
    + intros y Hy. apply elem_of_cons in Hy as [->|Hy].
      * specialize (IHle x (list_elem_of_here _ _)). lia.
      * apply elem_of_cons in Hy as [->|Hy]; [lia|].
        specialize (IHle y (list_elem_of_further _ _ _ Hy)). lia.
Qed.

Lemma absolute_locations_spec qt raws : forall locs,
  absolute_locations qt raws = Ok locs ->
  Forall2 (fun raw loc => exists secs, float_of_int (timestamp raw) = Ok secs
                          /\ loc = replace_timestamp raw (qt - secs)%float)
          raws locs.
Proof.
  induction raws as [|raw raws IH]; intros locs H; simpl in H.
  - injection H as <-. constructor.
  - inv_ok H. injection H as <-. constructor; [now exists x | now apply IH].
Qed.

Lemma parse_last_time_spec l last_time :
  parse_last_time l = Ok last_time ->
  startswith (strip l) (py "<lastTime time='") = true
  /\ endswith (strip l) (py "'/>") = true
  /\ exists a last_time_str b n x,
       split_on dquote l = [a; last_time_str; b]
       /\ int last_time_str = Ok n /\ float_of_int n = Ok x
       /\ last_time = (0.001 * x)%float.
Proof.
  unfold parse_last_time. intros H. inv_ok H. do 2 (split; [assumption|]).
  destruct (split_on dquote l) as [|a [|last_time_str [|b [|]]]]; try discriminate.
  inv_ok H. injection H as <-. now exists a, last_time_str, b, x1, x2.
Qed.

(** *** The claims about decoding a segment *)

(** C2, as amended.  When the parser yields a batch for a body, the batch
    has at least one vehicle and its query timestamp is [last_time + m],
    where [last_time] is the float product [0.001 * N] for the integer [N]
    between the double quotes of the second-to-last line of the retained
    segment, and [m] is the least [secsSinceReport] of the vehicles decoded
    from the lines in between; every location of the batch is the decoded
    vehicle with its timestamp replaced by the query timestamp minus its
    [secsSinceReport].  For [worked_body] ([lastTime] 5000, one vehicle seen
    2 seconds ago) [last_time] is 5.0, the query timestamp 7.0 and the
    vehicle's timestamp 5.0.  A body with no line between its second and
    its second-to-last line yields no batch; a body that is parsed, is not
    an error batch and has such lines yields a batch with one location for
    each of them. *)
Theorem query_timestamp_is_last_time_plus_min :
  (forall body qt (locs : list vehicle_location),
     query_data_body body = Ok (Some (qt, locs)) ->
     exists seg l_2 a last_time_str b n x (raws : list (vehicle_location_of Z)) m secs,
       retained body = Ok seg
       /\ getitem seg (-2) = Ok l_2
       /\ split_on dquote l_2 = [a; last_time_str; b]
       /\ int last_time_str = Ok n
       /\ float_of_int n = Ok x
       /\ Forall2 (fun l raw => parse_vehicle l = Ok raw) (slice seg 2 (-2)) raws
       /\ m ∈ timestamp <$> raws
       /\ (forall raw, raw ∈ raws -> m <= timestamp raw)
       /\ float_of_int m = Ok secs
       /\ qt = (0.001 * x + secs)%float
       /\ Forall2 (fun raw loc =>
                     exists age, float_of_int (timestamp raw) = Ok age
                               /\ loc = replace_timestamp raw (qt - age)%float)
                  raws locs)
  /\ (parse_last_time (line "<lastTime time='5000'/>") = Ok 5%float
      /\ query_data_body worked_body
         = Ok (Some (7%float,
                     [mk_vehicle_location 5%float 7 "A" (Some "A_out")
                        42.3601 (-71.0589) 10 0])))
  /\ (forall body seg,
       retained body = Ok seg -> slice seg 2 (-2) = [] ->
       forall batch, query_data_body body <> Ok (Some batch))
  /\ (forall body seg l2 r,
       retained body = Ok seg ->
       getitem seg 2 = Ok l2 ->
       startswith (strip l2) (py "<Error shouldRetry='") = false ->
       slice seg 2 (-2) <> [] ->
       query_data_body body = Ok r ->
       exists qt (locs : list vehicle_location),
         r = Some (qt, locs) /\ length locs = length (slice seg 2 (-2))).
Proof.
  split; [|split; [|split]].
  - intros body qt locs H. unfold query_data_body in H.
    apply bind_Ok in H as (seg & Hseg & H). unfold query_data_segment in H.
    inv_ok H.
    match type of H with (if ?c then _ else _) = _ => destruct c end.
    { inv_ok H. discriminate. }
    apply bind_Ok in H as (l_2 & Hl_2 & H).
    apply bind_Ok in H as (last_time & Hlast & H).
    apply bind_Ok in H as (raws' & Hraws & H).
    apply parse_last_time_spec in Hlast
      as (_ & _ & a & last_time_str & b & n & fn & Hsplit & Hn & Hfn & ->).
    apply parse_vehicles_spec in Hraws as (raws & -> & Hall). simpl in H.
    destruct raws as [|raw raws]; [discriminate|].
    apply bind_Ok in H as (secs & Hsecs & H).
    apply bind_Ok in H as (locs' & Hlocs & H).
    injection H as <- <-.
    destruct (min_list_spec (timestamp raw) (timestamp <$> raws)) as [Hin Hle].
    exists seg, l_2, a, last_time_str, b, n, fn, (raw :: raws),
      (min_list (timestamp raw) (timestamp <$> raws)), secs.
    repeat (split; [assumption || reflexivity|]).
    split; [|split; [assumption|split; [reflexivity|]]].
    + intros r Hr. apply Hle. change (timestamp r ∈ timestamp <$> raw :: raws).
      now apply list_elem_of_fmap_2.
    + now apply absolute_locations_spec.
  - split; vm_compute; reflexivity.
  - intros body seg Hseg Hslice batch H. unfold query_data_body in H.
    rewrite Hseg in H. cbn [mbind result_bind] in H.
    unfold query_data_segment in H. rewrite Hslice in H.
    inv_ok H.
    match type of H with (if ?c then _ else _) = _ => destruct c end;
      inv_ok H; simplify_eq/=.
  - intros body seg l2 r Hseg Hl2 Hnoerr Hlines H. unfold query_data_body in H.
    rewrite Hseg in H. cbn [mbind result_bind] in H.
    unfold query_data_segment in H. inv_ok H.
    match goal with E : getitem seg 2 = Ok _ |- _ =>
      rewrite Hl2 in E; injection E as <- end.
    rewrite Hnoerr in H.
    apply bind_Ok in H as (l_2 & _ & H).
    apply bind_Ok in H as (last_time & _ & H).
    apply bind_Ok in H as (raws' & Hraws & H).
    apply parse_vehicles_spec in Hraws as (raws & -> & Hall). simpl in H.
    pose proof (Forall2_length _ _ _ Hall) as Hlen.
    destruct raws as [|raw raws].
    { destruct (slice seg 2 (-2)); [contradiction | discriminate Hlen]. }
    apply bind_Ok in H as (secs & _ & H).
    apply bind_Ok in H as (locs & Hlocs & H). injection H as <-.
    exists (last_time + secs)%float, locs. split; [reflexivity|].
    apply absolute_locations_spec, Forall2_length in Hlocs. congruence.
Qed.

Lemma query_timestamp_is_last_time_plus_min_witness :
  exists seg l_2 a last_time_str b n x (raws : list (vehicle_location_of Z)) m secs,
    retained worked_body = Ok seg
    /\ getitem seg (-2) = Ok l_2
    /\ split_on dquote l_2 = [a; last_time_str; b]
    /\ int last_time_str = Ok n
    /\ float_of_int n = Ok x
    /\ Forall2 (fun l raw => parse_vehicle l = Ok raw) (slice seg 2 (-2)) raws
    /\ m ∈ timestamp <$> raws
    /\ (forall raw, raw ∈ raws -> m <= timestamp raw)
    /\ float_of_int m = Ok secs
    /\ 7%float = (0.001 * x + secs)%float
    /\ Forall2 (fun raw loc =>
                  exists age, float_of_int (timestamp raw) = Ok age
                            /\ loc = replace_timestamp raw (7 - age)%float)
               raws [mk_vehicle_location 5%float 7 "A" (Some "A_out")
                       42.3601 (-71.0589) 10 0].
Proof.
  apply (proj1 query_timestamp_is_last_time_plus_min worked_body).
  vm_compute. reflexivity.
Defined.

(** [lastTime] 1001: the code multiplies by [0.001], and the product is not
    the quotient by [1000.0]. *)
Lemma last_time_is_not_the_quotient :
  exists qt locs,
    query_data_body tick_body = Ok (Some (qt, locs))
    /\ qt <> (1001 / 1000 + 0)%float.
Proof.
  eexists _, _. split; [vm_compute; reflexivity|].
  vm_compute. discriminate.
Qed.

(** *** Splitting and quoting *)

Lemma split_on_nonempty sep s : split_on sep s <> [].
Proof.
  destruct s as [|c s]; simpl; [discriminate|].
  destruct (Ascii.eqb c sep); [discriminate|].
  destruct (split_on sep s); discriminate.
Qed.

Lemma split_on_cons_ne sep c s :
  Ascii.eqb c sep = false ->
  exists w ws, split_on sep s = w :: ws
               /\ split_on sep (String c s) = String c w :: ws.
Proof.
  intros H. simpl. rewrite H.
  destruct (split_on sep s) as [|w ws] eqn:E; [now apply split_on_nonempty in E|].
  now exists w, ws.
Qed.

Lemma split_on_append sep a b :
  occurs sep a = false ->
  split_on sep (a +:+ String sep b) = a :: split_on sep b.
Proof.
  induction a as [|c a IH]; intros H.
  - rewrite append_nil_l. simpl. now rewrite Ascii.eqb_refl.
  - simpl in H. apply orb_false_iff in H as [Hc Ha].
    rewrite append_cons. simpl. rewrite Hc. now rewrite IH.
Qed.

Lemma split_on_no_sep sep s : occurs sep s = false -> split_on sep s = [s].
Proof.
  induction s as [|c s IH]; intros H; [reflexivity|].
  simpl in H. apply orb_false_iff in H as [Hc Hs].
  simpl. rewrite Hc. now rewrite IH.
Qed.

Lemma split_on_join sep w ws :
  Forall (fun w => occurs sep w = false) (w :: ws) ->
  split_on sep (join (String sep "") (w :: ws)) = w :: ws.
Proof.
  revert w. induction ws as [|w' ws IH]; intros w H.
  - apply Forall_cons in H as [H _]. now apply split_on_no_sep.
  - apply Forall_cons in H as [Hw H].
    change (join (String sep "") (w :: w' :: ws))
      with (w +:+ String sep (join (String sep "") (w' :: ws))).
    rewrite split_on_append by assumption. now rewrite IH.
Qed.

Lemma join_split_on sep s :
  join (String sep "") (split_on sep s) = s
  /\ Forall (fun w => occurs sep w = false) (split_on sep s).
Proof.
  induction s as [|c s [IHj IHf]]; [now repeat constructor|].
  simpl. destruct (Ascii.eqb c sep) eqn:Ec.
  - apply Ascii.eqb_eq in Ec as ->. split; [|now constructor].
    destruct (split_on sep s) as [|w ws] eqn:E; [now apply split_on_nonempty in E|].
    change (join (String sep "") ("" :: w :: ws))
      with (String sep (join (String sep "") (w :: ws))).
    now rewrite IHj.
  - destruct (split_on sep s) as [|w ws] eqn:E; [now apply split_on_nonempty in E|].
    apply Forall_cons in IHf as [Hw Hws]. split.
    + rewrite <- IHj. destruct ws; reflexivity.
    + constructor; [|assumption]. simpl. now rewrite Ec, Hw.
Qed.

(** [s.split(sep)] has two parts exactly when [s] has one [sep]. *)
Lemma split_on_two sep s a b :
  split_on sep s = [a; b]
  <-> s = a +:+ String sep b /\ occurs sep a = false /\ occurs sep b = false.
Proof.
  split.
  - intros H. destruct (join_split_on sep s) as [Hj Hf]. rewrite H in Hj, Hf.
    apply Forall_cons in Hf as [Ha Hf]. apply Forall_cons in Hf as [Hb _].
    now rewrite <- Hj.
  - intros (-> & Ha & Hb). rewrite split_on_append by assumption.
    now rewrite split_on_no_sep.
Qed.

Lemma list_ascii_of_string_append s p :
  list_ascii_of_string (s +:+ p) = list_ascii_of_string s ++ list_ascii_of_string p.
Proof.
  induction s as [|c s IH]; [reflexivity|].
  rewrite append_cons. simpl. now rewrite IH.
Qed.

Lemma string_snoc c s : exists m z, String c s = m +:+ String z "".
Proof.
  revert c. induction s as [|c' s IH]; intros c.
  - now exists "", c.
  - destruct (IH c') as (m & z & ->). now exists (String c m), z.
Qed.

Lemma str_getitem_first c s : str_getitem (String c s) 0 = Ok c.
Proof. reflexivity. Qed.

Lemma str_getitem_last s z : str_getitem (s +:+ String z "") (-1) = Ok z.
Proof.
  unfold str_getitem. rewrite list_ascii_of_string_append. apply getitem_last.
Qed.

Lemma str_slice_inner c s z : str_slice (String c (s +:+ String z "")) 1 (-1) = s.
Proof.
  unfold str_slice, slice, clamp. cbn [list_ascii_of_string].
  rewrite list_ascii_of_string_append. cbn [list_ascii_of_string length].
  rewrite length_app. cbn [length].
  set (n := length (list_ascii_of_string s)).
  replace (Z.of_nat (S (n + 1))) with (Z.of_nat n + 2) by lia.
  cbn [Z.ltb Z.compare]. rewrite Z.min_l by lia. rewrite Z.max_r by lia.
  replace (Z.to_nat (-1 + (Z.of_nat n + 2) - 1)) with n by lia.
  change (Z.to_nat 1) with 1%nat. cbn [drop].
  subst n. rewrite drop_0, take_app_length.
  apply string_of_list_ascii_of_string.
Qed.

(** The check of a value and the removal of its quotes. *)
Lemma quoted_spec value v :
  (exists first last,
      str_getitem value 0 = Ok first /\ str_getitem value (-1) = Ok last
      /\ Ascii.eqb first last && Ascii.eqb last dquote = true
      /\ v = str_slice value 1 (-1))
  <-> quoted value v.
Proof.
  split.
  - intros (first & last & Hf & Hl & Hq & ->).
    apply andb_true_iff in Hq as [Hfl Hlq].
    apply Ascii.eqb_eq in Hfl, Hlq. subst first last.
    destruct value as [|c [|c' s]]; [discriminate| |].
    + left. injection Hf as ->. split; reflexivity.
    + right. injection Hf as ->.
      destruct (string_snoc c' s) as (m & z & E). rewrite E in *.
      rewrite <- append_cons, str_getitem_last in Hl. injection Hl as ->.
      now rewrite str_slice_inner.
  - intros [[-> ->] | ->].
    + exists dquote, dquote. repeat split; reflexivity.
    + exists dquote, dquote.
      rewrite <- append_cons, str_getitem_last.
      rewrite append_cons, str_slice_inner.
      repeat split; reflexivity.
Qed.

(** *** Vehicle lines *)

Lemma parse_attrs_cons token rest acc attrs :
  parse_attrs (token :: rest) acc = Ok attrs
  <-> exists name v,
        attribute token (name, v) /\ acc !! name = None
        /\ parse_attrs rest (<[name := v]> acc) = Ok attrs.
Proof.
  unfold attribute. cbn [parse_attrs fst snd]. split.
  - intros H.
    destruct (split_on "=" token) as [|name [|value [|]]] eqn:E; try discriminate.
    apply split_on_two in E as (-> & Hn & Hv).
    apply bind_Ok in H as ([] & Hfree & H). apply assert_Ok in Hfree.
    apply bool_decide_eq_true in Hfree.
    apply bind_Ok in H as (first & Hfirst & H).
    apply bind_Ok in H as (last & Hlast & H).
    apply bind_Ok in H as ([] & Hq & H). apply assert_Ok in Hq.
    exists name, (str_slice value 1 (-1)). split; [|now split].
    exists value. repeat (split; [assumption || reflexivity|]).
    apply quoted_spec. now exists first, last.
  - intros (name & v & (value & -> & Hn & Hv & Hq) & Hfree & H).
    rewrite (proj2 (split_on_two "=" _ name value)) by auto.
    apply quoted_spec in Hq as (first & last & -> & -> & Hq & ->).
    cbn [mbind result_bind]. rewrite Hq, bool_decide_eq_true_2 by assumption.
    exact H.
Qed.

Lemma parse_attrs_spec tokens : forall acc attrs,
  parse_attrs tokens acc = Ok attrs
  <-> exists pairs,
        Forall2 attribute tokens pairs /\ NoDup pairs.*1
        /\ (forall k, k ∈ pairs.*1 -> acc !! k = None)
        /\ attrs = put_attrs acc pairs.
Proof.
  induction tokens as [|token tokens IH]; intros acc attrs.
  - simpl. split.
    + intros [= <-]. exists []. repeat split; try constructor.
      intros k Hk. now apply elem_of_nil in Hk.
    + intros (pairs & Hall & _ & _ & ->). apply Forall2_nil_inv_l in Hall as ->.
      reflexivity.
  - rewrite parse_attrs_cons. split.
    + intros (name & v & Hattr & Hfree & H).
      apply IH in H as (pairs & Hall & Hnodup & Hfresh & ->).
      exists ((name, v) :: pairs). split; [now constructor|].
      split; [|split; [|reflexivity]].
      * cbn. constructor; [|assumption]. intros Hin.
        apply Hfresh in Hin. now rewrite lookup_insert_eq in Hin.
      * intros k Hk. cbn in Hk. apply elem_of_cons in Hk as [->|Hk]; [assumption|].
        specialize (Hfresh k Hk).
        destruct (decide (name = k)) as [->|Hne];
          [now rewrite lookup_insert_eq in Hfresh|].
        now rewrite lookup_insert_ne in Hfresh.
    + intros (pairs & Hall & Hnodup & Hfresh & ->).
      apply Forall2_cons_inv_l in Hall as ([name v] & pairs' & Hattr & Hall & ->).
      cbn in Hnodup. apply NoDup_cons in Hnodup as [Hnotin Hnodup].
      exists name, v. split; [assumption|]. split.
      * apply Hfresh. cbn. apply list_elem_of_here.
      * apply IH. exists pairs'. repeat split; try assumption.
        intros k Hk. rewrite lookup_insert_ne by (intros ->; contradiction).
        apply Hfresh. cbn. now apply list_elem_of_further.
Qed.

Lemma put_attrs_lookup pairs : forall acc,
  NoDup pairs.*1 -> (forall k, k ∈ pairs.*1 -> acc !! k = None) ->
  forall k v, put_attrs acc pairs !! k = Some v
              <-> (k, v) ∈ pairs \/ acc !! k = Some v.
Proof.
  induction pairs as [|[n w] pairs IH]; intros acc Hnodup Hfresh k v.
  - simpl. split; [now right|]. intros [H|H]; [now apply elem_of_nil in H | exact H].
  - cbn in Hnodup. apply NoDup_cons in Hnodup as [Hnotin Hnodup].
    cbn [put_attrs foldl fst snd]. fold (put_attrs (<[n := w]> acc) pairs).
    rewrite IH; [|assumption|].
    + rewrite elem_of_cons. destruct (decide (n = k)) as [->|Hne].
      * rewrite lookup_insert_eq.
        rewrite (Hfresh k) by (cbn; apply list_elem_of_here).
        split; [intros [H|[= <-]]; auto | intros [[[= <-]|H]|H]; auto; discriminate].
      * rewrite lookup_insert_ne by assumption.
        split; [intros [H|H]; auto | intros [[[= <- <-]|H]|H]; auto; contradiction].
    + intros k' Hk'. rewrite lookup_insert_ne by (intros ->; contradiction).
      apply Hfresh. cbn. now apply list_elem_of_further.
Qed.

Lemma put_attrs_empty pairs k :
  NoDup pairs.*1 ->
  (forall v, put_attrs ∅ pairs !! k = Some v <-> (k, v) ∈ pairs)
  /\ (put_attrs ∅ pairs !! k = None <-> k ∉ pairs.*1).
Proof.
  intros Hnodup.
  assert (H : forall v, put_attrs ∅ pairs !! k = Some v <-> (k, v) ∈ pairs).
  { intros v. rewrite put_attrs_lookup; [|assumption|intros; apply lookup_empty].
    rewrite lookup_empty. split; [intros [?|?]; [assumption|discriminate] | auto]. }
  split; [exact H|]. rewrite eq_None_not_Some. unfold is_Some.
  split; intros Hn.
  - intros Hin. apply Hn. apply list_elem_of_fmap in Hin as ([k' v] & -> & Hin).
    exists v. now apply H.
  - intros [v Hv]. apply Hn. apply H in Hv.
    now apply (list_elem_of_fmap_2 fst) in Hv.
Qed.

Lemma attr_Ok attrs key v : attr attrs key = Ok v <-> attrs !! key = Some v.
Proof.
  unfold attr. destruct (attrs !! key); split; intros H; try discriminate;
    now injection H as ->.
Qed.

Lemma attr_bind_Ok {A} attrs key (conv : string -> result A) x :
  attr attrs key ≫= conv = Ok x
  <-> exists v, attrs !! key = Some v /\ conv v = Ok x.
Proof.
  rewrite bind_Ok. split; intros (v & H & Hc); exists v; split;
    try assumption; now apply attr_Ok.
Qed.

(** Decoding one vehicle line. *)
Lemma parse_vehicle_spec l raw : parse_vehicle l = Ok raw <-> decodes_to l raw.
Proof.
  unfold parse_vehicle, decodes_to. rewrite bind_Ok. split.
  - intros ([] & H12 & H). apply assert_Ok, andb_true_iff in H12 as [H1 H2].
    do 2 (split; [assumption|]).
    apply bind_Ok in H as (attrs & Hattrs & H).
    apply parse_attrs_spec in Hattrs as (pairs & Hall & Hnodup & _ & ->).
    destruct (put_attrs_empty pairs "dirTag" Hnodup) as [Hdir Hnodir].
    exists pairs. do 2 (split; [assumption|]).
    repeat match type of H with
    | mbind _ (mbind _ (attr _ ?k)) = Ok _ =>
        let v := fresh "v" in let Hk := fresh "Hk" in let Hv := fresh "Hv" in
        apply bind_Ok in H as (? & Hk & H);
        apply attr_bind_Ok in Hk as (v & Hk & Hv);
        apply (proj1 (put_attrs_empty pairs k Hnodup)) in Hk
    | mbind _ (attr _ ?k) = Ok _ =>
        let Hk := fresh "Hk" in
        apply bind_Ok in H as (? & Hk & H);
        apply attr_Ok in Hk;
        apply (proj1 (put_attrs_empty pairs k Hnodup)) in Hk;
        cbv zeta in H
    end.
    injection H as <-. cbn [timestamp id route dir lat lon heading speed].
    repeat split; eauto.
    destruct (put_attrs ∅ pairs !! "dirTag") as [d|] eqn:E.
    + now apply Hdir.
    + now apply Hnodir.
  - intros (H1 & H2 & pairs & Hall & Hnodup & Hsecs & Hid & Hroute & Hdir
            & Hlat & Hlon & Hheading & Hspeed).
    exists tt. split; [apply assert_Ok, andb_true_iff; now split|].
    apply bind_Ok. exists (put_attrs ∅ pairs). split.
    { apply parse_attrs_spec. exists pairs.
      split; [assumption|]. split; [assumption|]. split; [|reflexivity].
      intros; apply lookup_empty. }
    assert (Hget : forall {A} k (conv : string -> result A) x,
               (exists v, (k, v) ∈ pairs /\ conv v = Ok x) ->
               attr (put_attrs ∅ pairs) k ≫= conv = Ok x).
    { intros A k conv x (v & Hin & Hv). apply attr_bind_Ok. exists v.
      split; [|assumption]. now apply (put_attrs_empty pairs k Hnodup). }
    rewrite (Hget _ _ _ _ Hsecs). cbn [mbind result_bind].
    rewrite (Hget _ _ _ _ Hid). cbn [mbind result_bind].
    rewrite (proj2 (attr_Ok _ _ _)
               (proj2 (proj1 (put_attrs_empty pairs _ Hnodup) _) Hroute)).
    cbn [mbind result_bind].
    rewrite (Hget _ _ _ _ Hlat). cbn [mbind result_bind].
    rewrite (Hget _ _ _ _ Hlon). cbn [mbind result_bind].
    rewrite (Hget _ _ _ _ Hheading). cbn [mbind result_bind].
    rewrite (Hget _ _ _ _ Hspeed). cbn [mbind result_bind].
    destruct raw as [t i r d la lo h sp]. cbn in *. do 2 f_equal.
    destruct d as [v|].
    + now apply (put_attrs_empty pairs "dirTag" Hnodup).
    + now apply (put_attrs_empty pairs "dirTag" Hnodup).
Qed.

(** C7, as amended.  A vehicle line is decoded exactly when it is well
    formed in the sense of [decodes_to]: trimmed, it starts with
    [<vehicle id=] and a double quote and ends with a double quote and
    [/>]; its attributes are separated by white space, each of the form
    [name=value] with one [=] sign and a value that starts and ends with a
    double quote; no name repeats; [secsSinceReport], [id], [heading] and
    [speedKmHr] are there with values [int] accepts, [lat] and [lon] with
    values [float] accepts, and [routeTag]; [dirTag] is optional and the
    direction is absent without it.  In a body that is not an error batch,
    one line between the second and the second-to-last that is not well
    formed makes the parser fail. *)
Theorem vehicle_line_decodes_iff_well_formed :
  (forall l raw, parse_vehicle l = Ok raw <-> decodes_to l raw)
  /\ (forall body seg l2 l,
       retained body = Ok seg ->
       getitem seg 2 = Ok l2 ->
       startswith (strip l2) (py "<Error shouldRetry='") = false ->
       l ∈ slice seg 2 (-2) ->
       (forall raw, ~ decodes_to l raw) ->
       ~ succeeds (query_data_body body))
  /\ parse_vehicle no_dir_line
     = Ok (mk_vehicle_location 2 7 "A" None 42.3601 (-71.0589) 10 0).
Proof.
  split; [exact parse_vehicle_spec|split].
  - intros body seg l2 l Hseg Hl2 Hnoerr Hin Hbad [res H].
    unfold query_data_body in H. rewrite Hseg in H. cbn [mbind result_bind] in H.
    unfold query_data_segment in H. inv_ok H.
    match goal with E : getitem seg 2 = Ok _ |- _ =>
      rewrite Hl2 in E; injection E as <- end.
    rewrite Hnoerr in H. inv_ok H.
    match goal with E : parse_vehicles _ _ = Ok ?r |- _ =>
      apply (parse_vehicles_fails _ [] l Hin); [|now exists r] end.
    intros [raw Hraw]. apply (Hbad raw). now apply parse_vehicle_spec.
  - vm_compute. reflexivity.
Qed.

Lemma vehicle_line_decodes_iff_well_formed_witness :
  ~ succeeds (query_data_body id_second_body).
Proof.
  apply (proj1 (proj2 vehicle_line_decodes_iff_well_formed)
           id_second_body id_second_body vehicle_line id_second_line).
  - reflexivity.
  - reflexivity.
  - reflexivity.
  - vm_compute. apply list_elem_of_further, list_elem_of_here.
  - intros raw Hraw.
    apply (proj1 vehicle_line_decodes_iff_well_formed) in Hraw.
    vm_compute in Hraw. discriminate Hraw.
Defined.

(** A line of the claimed shape, with [id] as its second attribute, is not
    decoded. *)
Lemma id_second_is_not_decoded :
  claimed_shape id_second_line
  /\ parse_vehicle id_second_line = Raise AssertionError.
Proof.
  split; [|vm_compute; reflexivity].
  split; [reflexivity|]. split; [reflexivity|].
  exists [("routeTag", "A"); ("id", "7"); ("lat", "42.3601"); ("lon", "-71.0589");
          ("secsSinceReport", "2"); ("heading", "10"); ("speedKmHr", "0")].
  split; [|split].
  - vm_compute split_whitespace.
    repeat (constructor;
            [eexists; split; [reflexivity|]; split; [reflexivity|];
             split; [reflexivity | right; reflexivity]|]).
    constructor.
  - apply (bool_decide_unpack _). vm_compute. exact I.
  - repeat constructor; apply (bool_decide_unpack _); vm_compute; exact I.
Qed.

End ResponseParser.

(** * Properties of the CSV writer and reader *)

Section CSV.

Implicit Types (s p : string) (c : ascii) (q : ascii -> bool)
  (loc : vehicle_location).

Lemma append_nil_r s : s +:+ "" = s.
Proof. induction s as [|c s IH]; [reflexivity|]. now rewrite append_cons, IH. Qed.

Lemma append_assoc s p r : (s +:+ p) +:+ r = s +:+ (p +:+ r).
Proof. induction s as [|c s IH]; [reflexivity|]. now rewrite !append_cons, IH. Qed.

Lemma occurs_append c s p : occurs c (s +:+ p) = occurs c s || occurs c p.
Proof.
  induction s as [|c' s IH]; [reflexivity|].
  rewrite append_cons. simpl. now rewrite IH, orb_assoc.
Qed.

Lemma occurs_join c sep fields :
  occurs c sep = false -> Forall (fun f => occurs c f = false) fields ->
  occurs c (join sep fields) = false.
Proof.
  intros Hsep H. induction H as [|f fields Hf H IH]; [reflexivity|].
  destruct fields as [|f' fields]; [exact Hf|].
  change (join sep (f :: f' :: fields)) with (f +:+ sep +:+ join sep (f' :: fields)).
  now rewrite !occurs_append, Hf, Hsep, IH.
Qed.

Lemma rstrip_with_id (q : ascii -> bool) s :
  (forall c, occurs c s = true -> q c = false) -> rstrip_with q s = s.
Proof.
  induction s as [|c s IH]; intros H; [reflexivity|].
  simpl. rewrite IH.
  - destruct s; [|reflexivity]. rewrite (H c); [reflexivity|].
    simpl. now rewrite Ascii.eqb_refl.
  - intros c' Hc'. apply H. simpl. now rewrite Hc', orb_true_r.
Qed.

Lemma lstrip_with_id (q : ascii -> bool) s :
  (forall c, occurs c s = true -> q c = false) -> lstrip_with q s = s.
Proof.
  destruct s as [|c s]; intros H; [reflexivity|].
  simpl. rewrite (H c); [reflexivity|]. simpl. now rewrite Ascii.eqb_refl.
Qed.

Lemma rstrip_newline s :
  occurs newline s = false -> rstrip_with (Ascii.eqb newline) (s +:+ nl) = s.
Proof.
  induction s as [|c s IH]; intros H; [reflexivity|].
  simpl in H. apply orb_false_iff in H as [Hc Hs].
  rewrite append_cons. cbn [rstrip_with]. rewrite IH by assumption.
  destruct s; [|reflexivity]. now rewrite Ascii.eqb_sym, Hc.
Qed.

(** *** Integers as text *)

Lemma string_of_uint_digits d c :
  occurs c (NilEmpty.string_of_uint d) = true -> is_digit c = true.
Proof.
  induction d as [|d IH|d IH|d IH|d IH|d IH|d IH|d IH|d IH|d IH|d IH];
    cbn [NilEmpty.string_of_uint occurs]; intros H; try discriminate;
    apply orb_true_iff in H as [H|H]; auto;
    apply Ascii.eqb_eq in H; now subst c.
Qed.

Lemma str_int_chars z c :
  occurs c (str_int z) = true -> is_digit c = true \/ c = "-"%char.
Proof.
  unfold str_int.
  destruct z as [|q|q]; cbn [Z.to_int NilZero.string_of_int occurs].
  - intros H. left. cbn [NilZero.string_of_uint occurs] in H.
    apply orb_true_iff in H as [H|H]; [|discriminate].
    apply Ascii.eqb_eq in H. now subst c.
  - unfold NilZero.string_of_uint.
    destruct (Pos.to_uint q) eqn:E; try (now apply Unsigned.to_uint_nonnil in E);
      rewrite <- E; intros H; left; now apply string_of_uint_digits in H.
  - intros H. apply orb_true_iff in H as [H|H].
    + right. apply Ascii.eqb_eq in H. now subst c.
    + left. revert H. unfold NilZero.string_of_uint.
      destruct (Pos.to_uint q) eqn:E; try (now apply Unsigned.to_uint_nonnil in E);
        rewrite <- E; apply string_of_uint_digits.
Qed.

Lemma str_int_avoids z c :
  is_digit c = false -> c <> "-"%char -> occurs c (str_int z) = false.
Proof.
  intros Hd Hm. destruct (occurs c (str_int z)) eqn:E; [|reflexivity].
  apply str_int_chars in E as [E| ->]; [congruence | contradiction].
Qed.

Lemma str_int_text_ok z : text_ok (str_int z) = true.
Proof. unfold text_ok. now rewrite !str_int_avoids. Qed.

Lemma strip_str_int z : strip (str_int z) = str_int z.
Proof.
  assert (H : forall c, occurs c (str_int z) = true -> is_space c = false).
  { intros c Hc. apply str_int_chars in Hc as [Hc| ->]; [|reflexivity].
    unfold is_digit, is_space in *. apply andb_true_iff in Hc as [H1 H2].
    apply Nat.leb_le in H1, H2.
    apply orb_false_iff. split; [apply andb_false_iff; right|];
      [apply Nat.leb_gt | apply Nat.eqb_neq]; lia. }
  unfold strip. rewrite rstrip_with_id by assumption. now apply lstrip_with_id.
Qed.

Lemma int_unsigned s :
  strip s = s -> (forall r, s <> String "+" r) ->
  int s = match NilZero.int_of_string s with
          | Some d => Ok (Z.of_int d)
          | None => Raise ValueError
          end.
Proof.
  intros Hs Hp. unfold int. rewrite Hs. destruct s as [|c r]; [reflexivity|].
  destruct (Ascii.ascii_dec c "+") as [->|Hc]; [now elim (Hp r)|].
  destruct c as [[] [] [] [] [] [] [] []]; try reflexivity. now elim Hc.
Qed.

(** [int(str(n))] is [n]. *)
Lemma int_str_int z : int (str_int z) = Ok z.
Proof.
  rewrite int_unsigned.
  - unfold str_int. rewrite NilZero.isi.
    + now rewrite DecimalZ.of_to.
    + destruct z; simpl; try discriminate.
      intros [= H]. now apply Unsigned.to_uint_nonnil in H.
    + destruct z; simpl; try discriminate.
      intros [= H]. now apply Unsigned.to_uint_nonnil in H.
  - apply strip_str_int.
  - intros r H.
    assert (E : occurs "+" (str_int z) = true) by (rewrite H; reflexivity).
    rewrite str_int_avoids in E; [discriminate|reflexivity|discriminate].
Qed.

Lemma str_int_not_id z : str_int z <> "id".
Proof. intros H. pose proof (int_str_int z) as E. rewrite H in E. discriminate E. Qed.

(** *** Floats as text *)

Lemma all_in_nil q : all_in q "".
Proof. constructor. Qed.

Lemma all_in_cons q c s : all_in q (String c s) <-> q c = true /\ all_in q s.
Proof.
  unfold all_in. cbn [list_ascii_of_string]. now rewrite Forall_cons.
Qed.

Lemma all_in_append q s p : all_in q (s +:+ p) <-> all_in q s /\ all_in q p.
Proof. unfold all_in. rewrite list_ascii_of_string_append. apply Forall_app. Qed.

Lemma all_in_mono q q' s :
  (forall c, q c = true -> q' c = true) -> all_in q s -> all_in q' s.
Proof. intros H Hs. unfold all_in in *. eapply Forall_impl; eauto. Qed.

Lemma all_in_slice q s a b : all_in q s -> all_in q (str_slice s a b).
Proof.
  unfold all_in, str_slice, slice. rewrite list_ascii_of_string_of_list_ascii.
  intros H. now apply Forall_take, Forall_drop.
Qed.

Lemma all_in_rstrip q q' s : all_in q s -> all_in q (rstrip_with q' s).
Proof.
  induction s as [|c s IH]; intros H; [apply all_in_nil|].
  apply all_in_cons in H as [Hc Hs]. cbn [rstrip_with].
  specialize (IH Hs). destruct (rstrip_with q' s) eqn:E.
  - destruct (q' c); [apply all_in_nil|].
    apply all_in_cons. split; [assumption | apply all_in_nil].
  - apply all_in_cons. now split.
Qed.

Lemma all_in_zeros n : all_in is_digit (zeros n).
Proof. induction n; [apply all_in_nil | now apply all_in_cons]. Qed.

Lemma all_in_occurs q s c : all_in q s -> q c = false -> occurs c s = false.
Proof.
  intros H Hc. induction s as [|c' s IH]; [reflexivity|].
  apply all_in_cons in H as [Hc' Hs]. cbn [occurs]. rewrite IH by assumption.
  destruct (Ascii.eqb_spec c' c) as [->|]; [congruence | reflexivity].
Qed.

Lemma occurs_all_in q s :
  (forall c, occurs c s = true -> q c = true) -> all_in q s.
Proof.
  induction s as [|c s IH]; intros H; [apply all_in_nil|].
  apply all_in_cons. split.
  - apply H. cbn [occurs]. now rewrite Ascii.eqb_refl.
  - apply IH. intros c' Hc'. apply H. cbn [occurs]. now rewrite Hc', orb_true_r.
Qed.

(** *** The digits of a positive integer *)

Lemma str_int_digits z : 0 <= z -> all_in is_digit (str_int z).
Proof.
  intros Hz. apply occurs_all_in. intros c Hc.
  destruct z as [|p'|p']; [| |lia].
  - change (str_int 0) with "0" in Hc. cbn [occurs] in Hc.
    rewrite orb_false_r in Hc. apply Ascii.eqb_eq in Hc. now subst c.
  - unfold str_int in Hc. cbn [Z.to_int NilZero.string_of_int] in Hc.
    unfold NilZero.string_of_uint in Hc.
    destruct (Pos.to_uint p') eqn:E;
      try (now apply Unsigned.to_uint_nonnil in E);
      rewrite <- E in Hc; now apply string_of_uint_digits in Hc.
Qed.

Lemma rstrip_with_empty q s : rstrip_with q s = "" -> all_in q s.
Proof.
  induction s as [|c s IH]; [intros _; apply all_in_nil|]. cbn [rstrip_with].
  destruct (rstrip_with q s) eqn:E; [|discriminate].
  destruct (q c) eqn:Ec; [|discriminate]. intros _.
  apply all_in_cons. split; [assumption | now apply IH].
Qed.

Lemma of_uint_zeros u :
  all_in (Ascii.eqb "0") (NilEmpty.string_of_uint u) -> Pos.of_uint u = 0%N.
Proof.
  induction u; cbn [NilEmpty.string_of_uint]; intros H;
    try reflexivity; apply all_in_cons in H as [Hc H]; try discriminate Hc.
  simpl. auto.
Qed.

Lemma digits_nonempty (d : Z) :
  0 < d -> rstrip_with (Ascii.eqb "0") (str_int d) <> "".
Proof.
  intros Hd E. apply rstrip_with_empty in E.
  destruct d as [|p'|p']; try lia.
  unfold str_int in E. cbn [Z.to_int NilZero.string_of_int] in E.
  unfold NilZero.string_of_uint in E.
  assert (H : all_in (Ascii.eqb "0") (NilEmpty.string_of_uint (Pos.to_uint p'))).
  { destruct (Pos.to_uint p') eqn:Eu; try exact E.
    now apply Unsigned.to_uint_nonnil in Eu. }
  apply of_uint_zeros in H. rewrite DecimalPos.Unsigned.of_to in H. discriminate.
Qed.

(** *** The significant digits are not all zero *)

Lemma magnitude_up_spec fuel : forall num den k,
  0 < den -> den <= num ->
  k <= magnitude_up fuel num den k
  /\ den * 10 ^ (magnitude_up fuel num den k - k) <= num.
Proof.
  induction fuel as [|fuel IH]; intros num den k Hden Hle; cbn [magnitude_up].
  - rewrite Z.sub_diag. lia.
  - destruct (Z.leb_spec (den * 10) num) as [H|H].
    + destruct (IH num (den * 10) (k + 1)) as [Hk Hj]; [lia|assumption|].
      split; [lia|].
      replace (magnitude_up fuel num (den * 10) (k + 1) - k)
        with (Z.succ (magnitude_up fuel num (den * 10) (k + 1) - (k + 1))) by lia.
      rewrite Z.pow_succ_r by lia. lia.
    + rewrite Z.sub_diag. lia.
Qed.

Lemma magnitude_down_spec fuel : forall num den k,
  k <= magnitude_down fuel num den k
  /\ (den <= num * 10 ^ (magnitude_down fuel num den k - k)
      \/ magnitude_down fuel num den k - k = Z.of_nat fuel).
Proof.
  induction fuel as [|fuel IH]; intros num den k; cbn [magnitude_down].
  - rewrite Z.sub_diag. split; [lia|now right].
  - destruct (Z.ltb_spec num den) as [H|H].
    + destruct (IH (num * 10) den (k + 1)) as [Hk Hj]. split; [lia|].
      destruct Hj as [Hj|Hj]; [left|right; lia].
      replace (magnitude_down fuel (num * 10) den (k + 1) - k)
        with (Z.succ (magnitude_down fuel (num * 10) den (k + 1) - (k + 1))) by lia.
      rewrite Z.pow_succ_r by lia. lia.
    + rewrite Z.sub_diag. split; [lia|left; lia].
Qed.

Lemma round_half_even_pos n m : 0 < m -> m <= n -> 0 < round_half_even n m.
Proof.
  intros Hm Hn. unfold round_half_even.
  assert (0 < n / m) by (apply Z.div_str_pos; lia).
  destruct (2 * (n mod m) ?= m); [destruct (Z.even (n / m))|..]; lia.
Qed.

Lemma significant_digits_pos m e :
  0 < m -> -1074 <= e -> 0 < (significant_digits m e).1.
Proof.
  intros Hm He. unfold significant_digits.
  set (num := if 0 <=? e then m * 2 ^ e else m).
  set (den := if 0 <=? e then 1 else 2 ^ (- e)).
  assert (Hnum : 0 < num).
  { subst num. destruct (0 <=? e) eqn:E; [|assumption].
    apply Z.leb_le in E. apply Z.mul_pos_pos; [assumption|].
    now apply Z.pow_pos_nonneg. }
  assert (Hden : 0 < den <= 10 ^ 400).
  { subst den. destruct (Z.leb_spec 0 e) as [E|E].
    - split; [lia | now vm_compute].
    - split; [apply Z.pow_pos_nonneg; lia|].
      transitivity (2 ^ 1074); [apply Z.pow_le_mono_r; lia | now vm_compute]. }
  match goal with |- 0 < (if ?d =? _ then _ else _).1 =>
    assert (Hd : 0 < d); [|destruct (d =? 10 ^ 12); [reflexivity | exact Hd]] end.
  unfold decimal_magnitude. destruct (Z.leb_spec den num) as [Hle|Hlt].
  - destruct (magnitude_up_spec 400 num den 0) as [Hx Hup]; [lia|assumption|].
    rewrite Z.sub_0_r in Hup. set (x := magnitude_up 400 num den 0) in *.
    destruct (Z.leb_spec x 11) as [Hx11|Hx11]; apply round_half_even_pos.
    + lia.
    + assert (1 <= 10 ^ (11 - x)) by (apply Z.lt_pred_le, Z.pow_pos_nonneg; lia).
      nia.
    + apply Z.mul_pos_pos; [lia | apply Z.pow_pos_nonneg; lia].
    + assert (10 ^ (x - 11) <= 10 ^ x) by (apply Z.pow_le_mono_r; lia).
      nia.
  - destruct (magnitude_down_spec 400 num den 0) as [Hx Hdown].
    rewrite Z.sub_0_r in Hdown. set (j := magnitude_down 400 num den 0) in *.
    destruct (Z.leb_spec (- j) 11) as [_|Hx11]; [|lia].
    apply round_half_even_pos; [lia|].
    replace (11 - - j) with (j + 11) by lia. rewrite Z.pow_add_r by lia.
    assert (1 <= 10 ^ 11) by now vm_compute.
    assert (0 < 10 ^ j) by (apply Z.pow_pos_nonneg; lia).
    destruct Hdown as [Hdown|Hdown]; [nia|].
    rewrite Hdown. change (Z.of_nat 400) with 400. nia.
Qed.

Lemma valid_binary_exponent sg m e :
  valid_binary (S754_finite sg m e) = true -> -1074 <= e.
Proof.
  cbn [SpecFloat.valid_binary]. unfold bounded, canonical_mantissa, fexp.
  intros H. apply andb_true_iff in H as [H _]. apply Z.eqb_eq in H.
  change (SpecFloat.emin prec emax) with (-1074) in H. lia.
Qed.

(** *** Reading decimal literals *)

Lemma is_digit_cases c :
  is_digit c = true ->
  c = "0"%char \/ c = "1"%char \/ c = "2"%char \/ c = "3"%char \/ c = "4"%char
  \/ c = "5"%char \/ c = "6"%char \/ c = "7"%char \/ c = "8"%char \/ c = "9"%char.
Proof.
  destruct c as [[] [] [] [] [] [] [] []]; intros H; try discriminate H; tauto.
Qed.

Lemma uint_of_string_digits s :
  all_in is_digit s -> is_Some (NilEmpty.uint_of_string s).
Proof.
  induction s as [|c s IH]; intros H; [now eexists|].
  apply all_in_cons in H as [Hc Hs]. destruct (IH Hs) as [u Hu].
  cbn [NilEmpty.uint_of_string]. rewrite Hu.
  apply is_digit_cases in Hc as [->|[->|[->|[->|[->|[->|[->|[->|[->| ->]]]]]]]]];
    now eexists.
Qed.

Lemma uint_value_digits s : all_in is_digit s -> s <> "" -> is_Some (uint_value s).
Proof.
  intros H Hne. unfold uint_value, NilZero.uint_of_string.
  destruct s as [|c r]; [contradiction|].
  destruct (uint_of_string_digits _ H) as [u ->]. now eexists.
Qed.

Lemma span_digits_append A R :
  all_in is_digit A ->
  match R with String c _ => is_digit c = false | "" => True end ->
  span_digits (A +:+ R) = (A, R).
Proof.
  intros HA HR. induction A as [|c A IH].
  - rewrite append_nil_l. destruct R as [|c R]; [reflexivity|].
    cbn [span_digits]. now rewrite HR.
  - apply all_in_cons in HA as [Hc HA]. rewrite append_cons.
    cbn [span_digits]. now rewrite Hc, IH.
Qed.

Lemma exponent_part_head E :
  exponent_part E ->
  match E with String c _ => is_digit c = false | "" => True end.
Proof. intros [->|(sgn & XX & -> & _)]; [exact I|reflexivity]. Qed.

Lemma decimal_exponent_part E : exponent_part E -> is_Some (decimal_exponent E).
Proof.
  intros [->|(sgn & XX & -> & Hsgn & HXX & Hne)]; [now eexists|].
  destruct (uint_value_digits XX HXX Hne) as [n Hn].
  cbn [decimal_exponent]. change (Ascii.eqb "e" "e" || Ascii.eqb "e" "E") with true.
  cbv iota. destruct Hsgn as [->| ->]; rewrite Hn; now eexists.
Qed.

Lemma decimal_literal_point A B E :
  all_in is_digit A -> all_in is_digit B -> A +:+ B <> "" -> exponent_part E ->
  is_Some (decimal_literal (A +:+ String "." (B +:+ E))).
Proof.
  intros HA HB Hne HE. unfold decimal_literal.
  rewrite span_digits_append by (assumption || reflexivity).
  rewrite span_digits_append by (try assumption; now apply exponent_part_head).
  destruct (uint_value_digits (A +:+ B)) as [m ->];
    [now apply all_in_append | assumption |].
  destruct (decimal_exponent_part E HE) as [e ->]. now eexists.
Qed.

Lemma decimal_literal_integer A E :
  all_in is_digit A -> A <> "" -> exponent_part E -> E <> "" ->
  is_Some (decimal_literal (A +:+ E)).
Proof.
  intros HA Hne HE HEne. unfold decimal_literal.
  rewrite span_digits_append by (try assumption; now apply exponent_part_head).
  destruct HE as [->|(sgn & XX & -> & Hsgn & HXX & HXXne)]; [contradiction|].
  cbv iota. rewrite append_nil_r.
  destruct (uint_value_digits A HA Hne) as [m ->].
  destruct (decimal_exponent_part (String "e" (String sgn XX))) as [e ->];
    [right; now exists sgn, XX | now eexists].
Qed.

Lemma float_unsigned_literal t :
  is_Some (decimal_literal t) -> is_Some (float_unsigned t).
Proof.
  intros [[m e] H]. unfold float_unsigned. rewrite H.
  destruct (_ || _); [now eexists|]. destruct (String.eqb _ _); now eexists.
Qed.

(** *** The printed text of a float is read by [float] *)

Lemma is_float_char_not_space c : is_float_char c = true -> is_space c = false.
Proof.
  destruct c as [[] [] [] [] [] [] [] []]; intros H; try discriminate H;
    reflexivity.
Qed.

Lemma strip_float_chars s : all_in is_float_char s -> strip s = s.
Proof.
  intros H.
  assert (Hs : forall c, occurs c s = true -> is_space c = false).
  { intros c Hc. apply is_float_char_not_space.
    destruct (is_float_char c) eqn:E; [reflexivity|].
    now rewrite (all_in_occurs _ _ _ H E) in Hc. }
  unfold strip. rewrite rstrip_with_id by assumption. now apply lstrip_with_id.
Qed.

Lemma float_of_str_digit c r :
  is_digit c = true -> all_in is_float_char (String c r) ->
  is_Some (float_unsigned (String c r)) -> succeeds (float_of_str (String c r)).
Proof.
  intros Hc Hs [x Hx]. unfold float_of_str. rewrite strip_float_chars by assumption.
  exists x. revert Hx.
  destruct c as [[] [] [] [] [] [] [] []]; try discriminate Hc; now intros ->.
Qed.

Lemma float_of_str_minus t :
  all_in is_float_char t -> is_Some (float_unsigned t) ->
  succeeds (float_of_str (String "-" t)).
Proof.
  intros Ht [x Hx]. unfold float_of_str. rewrite strip_float_chars.
  - rewrite Hx. now eexists.
  - apply all_in_cons. now split.
Qed.

Lemma str_slice_head c r k :
  1 <= k -> exists t, str_slice (String c r) 0 k = String c t.
Proof.
  intros Hk. unfold str_slice, slice, clamp. cbn [list_ascii_of_string length].
  change (0 <? 0) with false. cbv iota.
  set (n := Z.of_nat (S (length (list_ascii_of_string r)))).
  assert (0 < n) by lia.
  destruct (Z.ltb_spec k 0); [lia|]. rewrite (Z.min_l 0 n) by lia.
  change (Z.to_nat 0) with 0%nat. rewrite drop_0.
  destruct (Z.to_nat (Z.min k n - 0)) as [|j] eqn:E; [lia|].
  cbn [take string_of_list_ascii]. now eexists.
Qed.

Lemma str_exponent_part x : exponent_part ("e" +:+ str_exponent x).
Proof.
  right. unfold str_exponent.
  assert (Hd : all_in is_digit (str_int (Z.abs x))) by (apply str_int_digits; lia).
  assert (Hne : str_int (Z.abs x) <> "").
  { intros E. pose proof (int_str_int (Z.abs x)) as H. rewrite E in H. discriminate H. }
  exists (if x <? 0 then "-"%char else "+"%char),
    (if Z.abs x <? 10 then "0" +:+ str_int (Z.abs x) else str_int (Z.abs x)).
  split; [now destruct (x <? 0)|]. split; [destruct (x <? 0); auto|].
  destruct (Z.abs x <? 10); [|now split].
  split; [now apply all_in_cons | discriminate].
Qed.

(** The layout of non-empty digits: its characters, its first character,
    and its reading as a literal. *)
Lemma format_g_spec digits x :
  all_in is_digit digits -> digits <> "" ->
  all_in is_float_char (format_g digits x)
  /\ (exists c t, format_g digits x = String c t /\ is_digit c = true)
  /\ is_Some (decimal_literal (format_g digits x)).
Proof.
  intros Hd Hne.
  assert (Hfc : forall s, all_in is_digit s -> all_in is_float_char s).
  { intros s. apply all_in_mono. intros c Hc. unfold is_float_char. now rewrite Hc. }
  assert (Hpt : forall s, all_in is_float_char s -> all_in is_float_char ("." +:+ s)).
  { intros s Hs. now apply all_in_cons. }
  destruct digits as [|c0 r0] eqn:Edigits; [contradiction|]. rewrite <- Edigits in *.
  assert (Hc0 : is_digit c0 = true).
  { rewrite Edigits in Hd. now apply all_in_cons in Hd as [? _]. }
  unfold format_g.
  destruct ((x <? -4) || (12 <=? x)); [|destruct (Z.leb_spec 0 x) as [Hx|Hx];
    [destruct (len digits <=? x + 1)|]].
  - (* exponent form *)
    destruct (str_slice_head c0 r0 1) as [t Ht]; [lia|].
    assert (HD : all_in is_digit (str_slice digits 0 1)) by now apply all_in_slice.
    assert (HF : all_in is_digit (str_slice digits 1 (len digits)))
      by now apply all_in_slice.
    destruct (str_exponent_part x) as [HE|(sgn & XX & HE & Hsgn & HXX & HXXne)];
      [discriminate HE|].
    assert (HEc : all_in is_float_char ("e" +:+ str_exponent x)).
    { rewrite HE. apply all_in_cons. split; [reflexivity|].
      apply all_in_cons. split; [destruct Hsgn as [->| ->]; reflexivity | auto]. }
    split; [|split].
    + apply all_in_append. split; [auto|]. apply all_in_append. split; [|exact HEc].
      destruct (String.eqb _ ""); [apply all_in_nil | auto].
    + rewrite Edigits, Ht. rewrite append_cons. eexists _, _; split; [reflexivity | exact Hc0].
    + destruct (String.eqb_spec (str_slice digits 1 (len digits)) "") as [E|E].
      * rewrite append_nil_l. apply decimal_literal_integer; try assumption.
        -- rewrite Edigits, Ht. discriminate.
        -- right. now exists sgn, XX.
        -- discriminate.
      * change ("." +:+ str_slice digits 1 (len digits))
          with (String "." (str_slice digits 1 (len digits))).
        rewrite append_cons.
        apply decimal_literal_point; try assumption.
        -- rewrite Edigits, Ht. rewrite append_cons. discriminate.
        -- right. now exists sgn, XX.
  - (* an integer, with .0 *)
    split; [|split].
    + apply all_in_append. split; [auto|]. apply all_in_append.
      split; [apply Hfc, all_in_zeros | now repeat constructor].
    + rewrite Edigits, append_cons. eexists _, _; split; [reflexivity | exact Hc0].
    + rewrite <- append_assoc.
      change ".0" with (String "." ("0" +:+ "")).
      apply decimal_literal_point.
      * apply all_in_append. split; [assumption | apply all_in_zeros].
      * now repeat constructor.
      * rewrite Edigits, !append_cons. discriminate.
      * now left.
  - (* digits on both sides of the point *)
    destruct (str_slice_head c0 r0 (x + 1)) as [t Ht]; [lia|].
    split; [|split].
    + apply all_in_append. split; [apply Hfc; now apply all_in_slice|].
      apply Hpt, Hfc. now apply all_in_slice.
    + rewrite Edigits, Ht, append_cons. eexists _, _; split; [reflexivity | exact Hc0].
    + rewrite <- (append_nil_r (str_slice digits (x + 1) (len digits))).
      change ("." +:+ (str_slice digits (x + 1) (len digits) +:+ ""))
        with (String "." (str_slice digits (x + 1) (len digits) +:+ "")).
      apply decimal_literal_point; try (now apply all_in_slice); [|now left].
      rewrite Edigits, Ht, append_cons. discriminate.
  - (* zeros after the point *)
    split; [|split].
    + change "0." with (String "0" "."). rewrite append_cons.
      apply all_in_cons. split; [reflexivity|]. apply Hpt.
      apply all_in_append. split; [apply Hfc, all_in_zeros | auto].
    + eexists _, _; split; reflexivity.
    + rewrite <- (append_nil_r digits).
      change ("0." +:+ zeros (Z.to_nat (- x - 1)) +:+ digits +:+ "")
        with ("0" +:+ String "." ((zeros (Z.to_nat (- x - 1)) +:+ (digits +:+ "")))).
      rewrite <- append_assoc.
      apply decimal_literal_point; [now repeat constructor| |discriminate|now left].
      apply all_in_append. split; [apply all_in_zeros | assumption].
Qed.

(** Every float is printed as a text that [float] reads and that has no
    comma and no newline. *)
Lemma float_text_ok_all (x : float) : float_text_ok x = true.
Proof.
  unfold float_text_ok, str_float. pose proof (Prim2SF_valid x) as Hvalid.
  destruct (Prim2SF x) as [[]|[]| |sg m e]; try reflexivity.
  apply valid_binary_exponent in Hvalid.
  unfold str_float_finite.
  pose proof (significant_digits_pos (Z.pos m) e) as Hpos.
  destruct (significant_digits (Z.pos m) e) as [d k]. cbn [fst] in Hpos.
  destruct (format_g_spec (rstrip_with (Ascii.eqb "0") (str_int d)) k)
    as (Hchars & (c & t & Hhead & Hc) & Hlit).
  { apply all_in_rstrip, str_int_digits. lia. }
  { apply digits_nonempty. lia. }
  set (body := format_g _ k) in *.
  assert (Hall : all_in is_float_char ((if sg then "-" else "") +:+ body)).
  { destruct sg; [now apply all_in_cons | exact Hchars]. }
  apply andb_true_iff. split.
  - unfold text_ok. now rewrite !(all_in_occurs _ _ _ Hall).
  - apply float_unsigned_literal in Hlit.
    assert (Hok : succeeds (float_of_str ((if sg then "-" else "") +:+ body))).
    { destruct sg.
      - now apply float_of_str_minus.
      - rewrite append_nil_l, Hhead in *. now apply float_of_str_digit. }
    destruct Hok as [y ->]. reflexivity.
Qed.

(** *** Lines *)

Lemma text_ok_spec s :
  text_ok s = true <-> occurs "," s = false /\ occurs newline s = false.
Proof.
  unfold text_ok. rewrite andb_true_iff, !negb_true_iff. reflexivity.
Qed.

Lemma float_text_ok_spec (x : float) :
  float_text_ok x = true ->
  text_ok (str_float x) = true
  /\ float_of_str (str_float x) = Ok (reread_float x).
Proof.
  unfold float_text_ok, reread_float. intros H.
  apply andb_true_iff in H as [H1 H2]. split; [assumption|].
  now destruct (float_of_str (str_float x)).
Qed.

Lemma csv_safe_spec loc :
  csv_safe loc = true ->
  text_ok (route loc) = true
  /\ match dir loc with
     | Some d => negb (String.eqb d "") && text_ok d
     | None => true
     end = true.
Proof. unfold csv_safe. now rewrite andb_true_iff. Qed.

Lemma csv_fields_text_ok loc :
  csv_safe loc = true -> Forall (fun f => text_ok f = true) (csv_fields loc).
Proof.
  intros H. apply csv_safe_spec in H as (Hroute & Hdir).
  unfold csv_fields. repeat constructor; try assumption;
    try apply str_int_text_ok;
    try (now apply float_text_ok_spec, float_text_ok_all).
  destruct (dir loc) as [d|]; [|reflexivity].
  now apply andb_true_iff in Hdir as [_ Hdir].
Qed.

(** A line that [csv] writes is read back as the record reread. *)
Lemma read_csv_line_csv loc :
  csv_safe loc = true ->
  read_csv_line (join "," (csv_fields loc) +:+ nl) = Ok (Some (reread loc)).
Proof.
  intros Hsafe. pose proof (csv_fields_text_ok loc Hsafe) as Hok.
  unfold read_csv_line. rewrite rstrip_newline.
  2:{ apply occurs_join; [reflexivity|].
      eapply Forall_impl; [exact Hok|]. intros f Hf. now apply text_ok_spec in Hf. }
  change (split_on "," (join "," (csv_fields loc)))
    with (split_on "," (join (String "," "") (csv_fields loc))).
  unfold csv_fields in *. rewrite split_on_join.
  2:{ eapply Forall_impl; [exact Hok|]. intros f Hf. now apply text_ok_spec in Hf. }
  rewrite bool_decide_eq_false_2.
  2:{ intros [= _ H]. now apply str_int_not_id in H. }
  apply csv_safe_spec in Hsafe as (_ & Hdir).
  rewrite !(proj2 (float_text_ok_spec _ (float_text_ok_all _))).
  rewrite !int_str_int. cbn [mbind result_bind]. unfold reread. do 3 f_equal.
  destruct (dir loc) as [d|]; [|reflexivity]. simpl.
  apply andb_true_iff in Hdir as [Hdir _]. apply negb_true_iff in Hdir.
  now rewrite Hdir.
Qed.

Lemma file_lines_line s rest :
  occurs newline s = false ->
  file_lines ((s +:+ nl) +:+ rest) = (s +:+ nl) :: file_lines rest.
Proof.
  induction s as [|c s IH]; intros H.
  - rewrite append_nil_l. unfold nl. rewrite append_cons, append_nil_l.
    cbn [file_lines]. now rewrite Ascii.eqb_refl.
  - cbn [occurs] in H. apply orb_false_iff in H as [Hc Hs].
    rewrite !append_cons. cbn [file_lines]. now rewrite Hc, IH.
Qed.

Lemma writelines_cons l lines : writelines (l :: lines) = l +:+ writelines lines.
Proof.
  unfold writelines. destruct lines; [now rewrite append_nil_r | reflexivity].
Qed.





End CSV.

(** * Further properties of the framer *)

Section BodyFramer.

Implicit Types (lines rest acc init mid body : list string) (l first last : string).

(** One turn of the loop of [bodies]. *)
Lemma bodies_from_cons l rest acc :
  bodies_from (l :: rest) acc =
    if is_html_start (hd l acc) then
      if is_html_end l then bodies_from rest [] else bodies_from rest (acc ++ [l])
    else if is_body_end l then (acc ++ [l]) :: bodies_from rest []
    else bodies_from rest (acc ++ [l]).
Proof. now destruct acc. Qed.

Lemma html_start_not_end l : is_html_start l = true -> is_html_end l = false.
Proof.
  unfold is_html_start, is_html_end. intros H. apply String.eqb_eq in H.
  now rewrite H.
Qed.

Lemma buffer_ok_nil : buffer_ok [].
Proof. right. split; [constructor | reflexivity]. Qed.

Lemma bodies_from_framed lines : forall acc body,
  buffer_ok acc -> body ∈ bodies_from lines acc -> framed body.
Proof.
  induction lines as [|l lines IH]; intros acc body Hacc Hin.
  - now apply elem_of_nil in Hin.
  - rewrite bodies_from_cons in Hin.
    destruct (is_html_start (hd l acc)) eqn:Ehtml.
    + destruct (is_html_end l) eqn:Eend; [now apply (IH [] body buffer_ok_nil)|].
      apply (IH (acc ++ [l])); [|exact Hin].
      left. destruct acc as [|first acc']; [now exists l, []|].
      now exists first, (acc' ++ [l]).
    + destruct Hacc as [(first & acc' & -> & Hfirst)|[Hall Hhd]].
      { simpl in Ehtml. congruence. }
      destruct (is_body_end l) eqn:Ebody.
      * apply elem_of_cons in Hin as [->|Hin];
          [|now apply (IH [] body buffer_ok_nil)].
        exists acc, l. repeat split; assumption.
      * apply (IH (acc ++ [l])); [|exact Hin].
        right. split; [apply Forall_app; split; [assumption | now constructor]|].
        intros l' Hl'. destruct acc as [|first acc']; simpl in *; congruence.
Qed.

Lemma bodies_from_contiguous lines : forall acc body,
  body ∈ bodies_from lines acc ->
  exists pre post, acc ++ lines = pre ++ body ++ post.
Proof.
  induction lines as [|l lines IH]; intros acc body Hin.
  - now apply elem_of_nil in Hin.
  - rewrite bodies_from_cons in Hin.
    assert (Hreset : body ∈ bodies_from lines [] ->
                     exists pre post, acc ++ l :: lines = pre ++ body ++ post).
    { intros H. apply IH in H as (pre & post & E). simpl in E.
      exists (acc ++ l :: pre), post. rewrite E, <- app_assoc. reflexivity. }
    assert (Hgrow : body ∈ bodies_from lines (acc ++ [l]) ->
                    exists pre post, acc ++ l :: lines = pre ++ body ++ post).
    { intros H. apply IH in H as (pre & post & E).
      exists pre, post. rewrite <- E, <- app_assoc. reflexivity. }
    destruct (is_html_start (hd l acc)).
    + destruct (is_html_end l); auto.
    + destruct (is_body_end l); [|auto].
      apply elem_of_cons in Hin as [->|Hin]; [|auto].
      exists [], lines. simpl. now rewrite <- app_assoc.
Qed.

Lemma bodies_from_sublist lines : forall acc,
  concat (bodies_from lines acc) `sublist_of` acc ++ lines.
Proof.
  induction lines as [|l lines IH]; intros acc.
  - apply sublist_nil_l.
  - rewrite bodies_from_cons.
    assert (Hreset : concat (bodies_from lines []) `sublist_of` acc ++ l :: lines).
    { etransitivity; [apply (IH [])|]. simpl.
      apply sublist_inserts_l, sublist_cons, reflexivity. }
    assert (Hgrow : concat (bodies_from lines (acc ++ [l]))
                    `sublist_of` acc ++ l :: lines).
    { etransitivity; [apply IH|]. now rewrite <- app_assoc. }
    destruct (is_html_start (hd l acc)).
    + now destruct (is_html_end l).
    + destruct (is_body_end l); [|assumption].
      simpl. rewrite <- app_assoc. simpl.
      apply sublist_app; [reflexivity|]. apply sublist_skip, (IH []).
Qed.

(** An error page in the buffer is dropped at its [</html>] line. *)
Lemma bodies_from_page mid : forall acc last rest,
  (exists first acc', acc = first :: acc' /\ is_html_start first = true) ->
  Forall (fun l => is_html_end l = false) mid ->
  is_html_end last = true ->
  bodies_from (mid ++ last :: rest) acc = bodies_from rest [].
Proof.
  induction mid as [|l mid IH];
    intros acc last rest (first & acc' & -> & Hfirst) Hmid Hlast.
  - simpl app. rewrite bodies_from_cons. simpl hd. now rewrite Hfirst, Hlast.
  - apply Forall_cons in Hmid as [Hl Hmid].
    simpl app. rewrite bodies_from_cons. simpl hd. rewrite Hfirst, Hl.
    apply IH; [|assumption..]. now exists first, (acc' ++ [l]).
Qed.

(** A buffer that opens no error page is yielded at the first closing line. *)
Lemma bodies_from_body init : forall acc last rest,
  Forall (fun l => is_body_end l = false) init ->
  is_html_start (hd last (acc ++ init)) = false ->
  is_body_end last = true ->
  bodies_from (init ++ last :: rest) acc
  = (acc ++ init ++ [last]) :: bodies_from rest [].
Proof.
  induction init as [|l init IH]; intros acc last rest Hinit Hhd Hlast.
  - rewrite app_nil_r in Hhd. simpl app. rewrite bodies_from_cons.
    now rewrite Hhd, Hlast.
  - apply Forall_cons in Hinit as [Hl Hinit].
    simpl app. rewrite bodies_from_cons.
    assert (E : is_html_start (hd l acc) = false).
    { destruct acc; exact Hhd. }
    rewrite E, Hl. rewrite IH; [|assumption| |assumption].
    + now rewrite <- !app_assoc.
    + rewrite <- app_assoc. exact Hhd.
Qed.

Lemma bodies_from_open_page lines : forall acc,
  (exists first acc', acc = first :: acc' /\ is_html_start first = true) ->
  Forall (fun l => is_html_end l = false) lines ->
  bodies_from lines acc = [].
Proof.
  induction lines as [|l lines IH]; intros acc (first & acc' & -> & Hfirst) Hall;
    [reflexivity|].
  apply Forall_cons in Hall as [Hl Hall].
  rewrite bodies_from_cons. simpl hd. rewrite Hfirst, Hl.
  apply IH; [|assumption]. now exists first, (acc' ++ [l]).
Qed.

Lemma bodies_from_no_end lines : forall acc,
  Forall (fun l => is_body_end l = false) lines ->
  bodies_from lines acc = [].
Proof.
  induction lines as [|l lines IH]; intros acc Hall; [reflexivity|].
  apply Forall_cons in Hall as [Hl Hall].
  rewrite bodies_from_cons, Hl.
  destruct (is_html_start _); [destruct (is_html_end l)|]; now apply IH.
Qed.

Lemma bodies_from_trailing lines (tail : list string) : forall acc,
  Forall (fun l => is_body_end l = false) tail ->
  bodies_from (lines ++ tail) acc = bodies_from lines acc.
Proof.
  induction lines as [|l lines IH]; intros acc Htail.
  - now apply bodies_from_no_end.
  - cbn [app]. rewrite !bodies_from_cons.
    destruct (is_html_start _); [destruct (is_html_end l)|destruct (is_body_end l)];
      now rewrite IH.
Qed.

(** X1. Every body that [bodies] yields is a frame: it is not empty, its
    last line, trimmed, is [</body>], no line before the last is, and its
    first line, trimmed, is not [<html>].  It is a run of consecutive lines
    of the stream. *)
Theorem bodies_are_framed lines body :
  body ∈ bodies lines ->
  framed body /\ exists pre post, lines = pre ++ body ++ post.
Proof.
  intros Hin. split.
  - exact (bodies_from_framed lines [] body buffer_ok_nil Hin).
  - now apply (bodies_from_contiguous lines []).
Qed.

Lemma bodies_are_framed_witness :
  framed worked_body
  /\ exists pre post, error_page ++ worked_body = pre ++ worked_body ++ post.
Proof.
  apply (bodies_are_framed (error_page ++ worked_body) worked_body).
  vm_compute. apply list_elem_of_here.
Defined.

(** X2. The lines of the yielded bodies, one body after the other, are a
    subsequence of the lines of the stream: no line is yielded twice, none
    is made up, and the order of the stream is kept. *)
Theorem bodies_keep_order lines : concat (bodies lines) `sublist_of` lines.
Proof.
  unfold bodies. change lines with ([] ++ lines) at 2.
  apply bodies_from_sublist.
Qed.

(** X3. An error page is dropped as a whole: when the buffer is empty and
    the next line, trimmed, is [<html>], the lines up to and including the
    first line that is [</html>] yield nothing, also when a line of the page
    is [</body>], and the framer goes on after the page with an empty
    buffer. *)
Theorem error_page_is_dropped first mid last rest :
  is_html_start first = true ->
  Forall (fun l => is_html_end l = false) mid ->
  is_html_end last = true ->
  bodies (first :: mid ++ last :: rest) = bodies rest.
Proof.
  intros Hfirst Hmid Hlast. unfold bodies.
  rewrite bodies_from_cons. simpl hd.
  rewrite Hfirst, (html_start_not_end first Hfirst).
  apply bodies_from_page; [now exists first, [] | assumption..].
Qed.

Lemma error_page_is_dropped_witness :
  bodies (line "<html>"
            :: [line "<body>"; line "503 Service Unavailable"; line "</body>"]
            ++ line "</html>" :: worked_body)
  = bodies worked_body.
Proof.
  apply error_page_is_dropped; [reflexivity | repeat constructor | reflexivity].
Defined.

(** X4. A frame at the head of the stream is yielded as it is, and the
    framer goes on after it with an empty buffer. *)
Theorem framed_body_is_yielded body rest :
  framed body -> bodies (body ++ rest) = body :: bodies rest.
Proof.
  intros (init & last & -> & Hlast & Hinit & Hhd). unfold bodies.
  rewrite <- app_assoc. simpl. now rewrite bodies_from_body.
Qed.

Lemma framed_body_is_yielded_witness :
  bodies (worked_body ++ error_body) = worked_body :: bodies error_body.
Proof.
  apply framed_body_is_yielded.
  exists (take 4 worked_body), (line "</body>").
  split; [reflexivity|]. split; [reflexivity|].
  split; [repeat constructor | reflexivity].
Defined.

(** X5. An error page that is never closed swallows the rest of the stream:
    after a line that is [<html>], read with an empty buffer, nothing is
    yielded as long as no line is [</html>], whatever bodies follow. *)
Theorem open_error_page_swallows_the_rest first rest :
  is_html_start first = true ->
  Forall (fun l => is_html_end l = false) rest ->
  bodies (first :: rest) = [].
Proof.
  intros Hfirst Hrest. unfold bodies.
  rewrite bodies_from_cons. simpl hd.
  rewrite Hfirst, (html_start_not_end first Hfirst).
  apply bodies_from_open_page; [now exists first, [] | assumption].
Qed.

Lemma open_error_page_swallows_the_rest_witness :
  bodies (line "<html>" :: worked_body) = [].
Proof.
  apply open_error_page_swallows_the_rest; [reflexivity | repeat constructor].
Defined.

(** X6. Lines after the last [</body>] line are dropped without a trace: a
    tail without such a line adds no body, so a capture cut short at the end
    of the archive is never yielded and raises nothing. *)
Theorem lines_after_the_last_body_are_dropped lines (tail : list string) :
  Forall (fun l => is_body_end l = false) tail ->
  bodies (lines ++ tail) = bodies lines.
Proof. intros Htail. unfold bodies. now apply bodies_from_trailing. Qed.

Lemma lines_after_the_last_body_are_dropped_witness :
  bodies (worked_body ++ take 4 worked_body) = bodies worked_body.
Proof.
  apply lines_after_the_last_body_are_dropped. repeat constructor.
Defined.

End BodyFramer.

(** * Further properties of the de-duplicating stream *)

Section DeduplicatorStream.

Implicit Types (d : history) (loc : vehicle_location) (k : Z)
  (recs : list (float * vehicle_location)) (evs : list event)
  (batches : list (float * list vehicle_location)).

(** *** One vehicle at a time *)






(** *** Splitting a list at its last element *)

Lemma snoc_split {A} (X Y : list A) (x L : A) (B : list A) :
  X ++ [x] = Y ++ L :: B ->
  (B = [] /\ Y = X /\ L = x) \/ (exists B', B = B' ++ [x] /\ X = Y ++ L :: B').
Proof.
  intros E. destruct B as [|b B _] using rev_ind.
  - left. apply app_inj_tail in E as [-> ->]. auto.
  - right. change (Y ++ L :: B ++ [b]) with (Y ++ (L :: B) ++ [b]) in E.
    rewrite app_assoc in E. apply app_inj_tail in E as [-> ->]. now exists B.
Qed.

Lemma last_last_n {A} (n : nat) (l : list A) :
  (0 < n)%nat -> last (last_n n l) = last l.
Proof.
  intros Hn. destruct l as [|x l _] using rev_ind; [reflexivity|].
  unfold last_n. rewrite length_app. simpl.
  rewrite drop_app_le by lia. now rewrite !last_snoc.
Qed.

Lemma snd_pair_fmap {A B} (a : A) (l : list B) : (pair a <$> l).*2 = l.
Proof.
  induction l as [|x l IH]; [reflexivity|]. rewrite !fmap_cons. now f_equal.
Qed.

(** *** What is yielded is new *)

Lemma locations_seq_fresh k recs : forall A L B,
  of_vehicle k (yielded (locations_seq recs ∅).1) = A ++ L :: B ->
  forall prev, prev ∈ last_n 3 A -> ~ near_duplicate L prev.
Proof.
  induction recs as [|[qt loc] recs IH] using rev_ind; intros A L B E prev Hprev.
  - now destruct A.
  - rewrite locations_seq_snoc in E. cbn [fst] in E.
    rewrite yielded_app, of_vehicle_app, locations_step_yielded in E.
    destruct (existsb _ _) eqn:Edup.
    { rewrite app_nil_r in E. now apply (IH A L B). }
    rewrite of_vehicle_singleton in E.
    destruct (decide (id loc = k)) as [Ek|Ek].
    2:{ rewrite app_nil_r in E. now apply (IH A L B). }
    apply snoc_split in E as [(-> & -> & ->)|(B' & -> & E)].
    + rewrite locations_seq_history in Edup
        by (rewrite history_of_empty; simpl; lia).
      rewrite history_of_empty, Ek in Edup. simpl in Edup.
      intros Hdup. apply not_true_iff_false in Edup. apply Edup.
      apply existsb_duplicate. now exists prev.
    + now apply (IH A L B').
Qed.


(** *** Warnings *)

Lemma announced_app evs evs' :
  announced evs -> announced evs' -> announced (evs ++ evs').
Proof.
  intros H H' i w Hi. apply lookup_app_Some in Hi as [Hi|[Hlen Hi]].
  - destruct (H i w Hi) as (qt & loc & -> & Hnext). exists qt, loc.
    split; [reflexivity|]. now apply lookup_app_l_Some.
  - destruct (H' _ w Hi) as (qt & loc & -> & Hnext). exists qt, loc.
    split; [reflexivity|]. rewrite lookup_app_r by lia.
    now replace (S i - length evs)%nat with (S (i - length evs)) by lia.
Qed.

Lemma locations_step_announced qt loc d : announced (locations_step qt loc d).1.
Proof.
  destruct (existsb (is_duplicate loc) (history_of d (id loc))) eqn:E.
  - rewrite locations_step_rejected by assumption. intros i w Hi. now destruct i.
  - rewrite locations_step_accepted by assumption. cbn [fst].
    unfold out_of_order. destruct (last _) as [newest|].
    + destruct (_ <=? _)%float.
      * intros [|[|i]] w Hi; simplify_eq/=. now exists qt, loc.
      * intros [|i] w Hi; simplify_eq/=.
    + intros [|i] w Hi; simplify_eq/=.
Qed.

Lemma locations_seq_announced recs : forall d, announced (locations_seq recs d).1.
Proof.
  induction recs as [|[qt loc] recs IH]; intros d.
  - intros i w Hi. now destruct i.
  - rewrite locations_seq_cons. cbn [fst].
    apply announced_app; [apply locations_step_announced | apply IH].
Qed.

Lemma ascending_snoc (Y : list vehicle_location) x :
  ascending (Y ++ [x])
  <-> ascending Y
      /\ forall p, last Y = Some p -> (timestamp x <=? timestamp p)%float = false.
Proof.
  split.
  - intros H. split.
    + intros A p L B ->. apply (H A p L (B ++ [x])).
      now rewrite <- !app_assoc.
    + intros p Hp. apply last_Some in Hp as [Y' ->].
      apply (H Y' p x []). now rewrite <- app_assoc.
  - intros [HY Hlast] A p L B E.
    change (A ++ p :: L :: B) with (A ++ [p] ++ L :: B) in E.
    rewrite app_assoc in E.
    apply snoc_split in E as [(-> & <- & ->)|(B' & -> & E)].
    + apply Hlast, last_snoc.
    + apply (HY A p L B'). now rewrite E, <- app_assoc.
Qed.

Lemma warnings_app evs evs' : warnings (evs ++ evs') = warnings evs ++ warnings evs'.
Proof. apply omap_app. Qed.

(** A step logs no warning exactly when it rejects its record or the record
    is newer than the newest entry of the history. *)
Lemma warnings_step qt loc d :
  warnings (locations_step qt loc d).1 = []
  <-> existsb (is_duplicate loc) (history_of d (id loc)) = true
      \/ forall p, last (history_of d (id loc)) = Some p ->
                   (timestamp loc <=? timestamp p)%float = false.
Proof.
  destruct (existsb (is_duplicate loc) (history_of d (id loc))) eqn:E.
  - rewrite locations_step_rejected by assumption. split; [now left | reflexivity].
  - rewrite locations_step_accepted by assumption. cbn [fst].
    rewrite warnings_app. unfold out_of_order.
    destruct (last _) as [newest|].
    + destruct (_ <=? _)%float eqn:Ecmp; simpl.
      * split; [discriminate|]. intros [?|H]; [discriminate|].
        specialize (H newest eq_refl). congruence.
      * split; [|reflexivity]. intros _. right. now intros p [= <-].
    + split; [|reflexivity]. intros _. right. discriminate.
Qed.

Lemma locations_seq_warnings recs :
  warnings (locations_seq recs ∅).1 = []
  <-> forall k, ascending (of_vehicle k (yielded (locations_seq recs ∅).1)).
Proof.
  induction recs as [|[qt loc] recs IH] using rev_ind.
  - split; [|reflexivity]. intros _ k A p L B E. now destruct A.
  - rewrite locations_seq_snoc. cbn [fst].
    rewrite warnings_app. setoid_rewrite yielded_app. setoid_rewrite of_vehicle_app.
    setoid_rewrite locations_step_yielded.
    pose proof (warnings_step qt loc (locations_seq recs ∅).2) as Hstep.
    rewrite locations_seq_history in Hstep by (rewrite history_of_empty; simpl; lia).
    rewrite history_of_empty in Hstep. cbn [app] in Hstep.
    rewrite last_last_n in Hstep by lia.
    rewrite locations_seq_history by (rewrite history_of_empty; simpl; lia).
    rewrite history_of_empty. cbn [app].
    destruct (existsb _ _) eqn:Edup.
    + setoid_rewrite app_nil_r. rewrite <- IH.
      split.
      * intros H. now apply app_eq_nil in H as [? _].
      * intros H. rewrite H. simpl. apply Hstep. now left.
    + split.
      * intros H. apply app_eq_nil in H as [H1 H2].
        apply Hstep in H2 as [?|H2]; [discriminate|].
        intros k. rewrite of_vehicle_singleton.
        destruct (decide (id loc = k)) as [<-|Hne].
        -- apply ascending_snoc. split; [now apply IH | exact H2].
        -- rewrite app_nil_r. now apply IH.
      * intros H.
        assert (HY : forall k,
                   ascending (of_vehicle k (yielded (locations_seq recs ∅).1))).
        { intros k. specialize (H k). rewrite of_vehicle_singleton in H.
          destruct (decide (id loc = k)).
          - now apply ascending_snoc in H as [? _].
          - now rewrite app_nil_r in H. }
        apply IH in HY. rewrite HY. simpl. apply Hstep. right.
        specialize (H (id loc)). rewrite of_vehicle_singleton, decide_True in H
          by reflexivity.
        now apply ascending_snoc in H as [_ ?].
Qed.

(** *** A batch seen twice *)

Lemma locations_seq_other k recs : forall d,
  k ∉ id <$> recs.*2 ->
  history_of (locations_seq recs d).2 k = history_of d k.
Proof.
  induction recs as [|[qt loc] recs IH]; intros d Hk; [reflexivity|].
  rewrite !fmap_cons in Hk. cbn [snd] in Hk.
  apply not_elem_of_cons in Hk as [Hne Hk].
  rewrite locations_seq_cons. cbn [snd]. rewrite IH by assumption.
  rewrite locations_step_history. destruct (existsb _ _); [reflexivity|].
  now rewrite decide_False by congruence.
Qed.

Lemma elem_of_track (prevs : list vehicle_location) loc : loc ∈ track prevs loc.
Proof.
  unfold track. destruct (3 <? _) eqn:E.
  - destruct prevs as [|p prevs]; [discriminate|]. simpl. rewrite drop_0.
    apply elem_of_app. right. apply list_elem_of_here.
  - apply elem_of_app. right. apply list_elem_of_here.
Qed.

(** After a batch with distinct ids, each of its records that is a near
    duplicate of itself has a near duplicate in the history of its vehicle. *)
Lemma locations_batch_known qt (locs : list vehicle_location) : forall d,
  NoDup (id <$> locs) ->
  Forall (fun loc => is_duplicate loc loc = true) locs ->
  Forall (fun loc => existsb (is_duplicate loc)
            (history_of (locations_batch qt locs d).2 (id loc)) = true) locs.
Proof.
  induction locs as [|loc locs IH]; intros d Hnd Hself; [constructor|].
  rewrite fmap_cons in Hnd. apply NoDup_cons in Hnd as [Hnotin Hnd].
  apply Forall_cons in Hself as [Hloc Hself].
  rewrite locations_batch_seq, fmap_cons, locations_seq_cons. cbn [snd].
  constructor.
  - rewrite locations_seq_other by now rewrite snd_pair_fmap.
    rewrite locations_step_history.
    destruct (existsb (is_duplicate loc) (history_of d (id loc))) eqn:E; [exact E|].
    rewrite decide_True by reflexivity.
    apply existsb_exists. exists loc. split; [|exact Hloc].
    apply list_elem_of_In, elem_of_track.
  - rewrite <- locations_batch_seq. now apply IH.
Qed.

(** A batch whose records all have a near duplicate in the histories logs
    and yields nothing and leaves the histories as they are. *)
Lemma locations_batch_all_known qt (locs : list vehicle_location) : forall d,
  Forall (fun loc => existsb (is_duplicate loc) (history_of d (id loc)) = true) locs ->
  (locations_batch qt locs d).1 = []
  /\ forall k, history_of (locations_batch qt locs d).2 k = history_of d k.
Proof.
  induction locs as [|loc locs IH]; intros d Hall; [now split|].
  apply Forall_cons in Hall as [Hloc Hall].
  rewrite locations_batch_seq, fmap_cons, locations_seq_cons, <- locations_batch_seq.
  cbn [fst snd].
  assert (Hd : forall k, history_of (locations_step qt loc d).2 k = history_of d k).
  { intros k. now rewrite locations_step_history, Hloc. }
  destruct (IH (locations_step qt loc d).2) as [IH1 IH2].
  { eapply Forall_impl; [exact Hall|]. intros l Hl. simpl in *. now rewrite Hd. }
  split.
  - rewrite IH1, locations_step_rejected by assumption. reflexivity.
  - intros k. now rewrite IH2.
Qed.

Lemma locations_from_snoc batches qt (locs : list vehicle_location) :
  locations_from (batches ++ [(qt, locs)]) ∅
  = ((locations batches).1 ++ (locations_batch qt locs (locations batches).2).1,
     (locations_batch qt locs (locations batches).2).2).
Proof.
  unfold locations. rewrite !locations_from_seq, processing_order_app.
  rewrite locations_seq_app. destruct (locations_seq _ ∅) as [evs d1]. cbn [fst snd].
  change (processing_order [(qt, locs)]) with ((pair qt <$> locs) ++ []).
  rewrite app_nil_r, <- locations_batch_seq. now destruct (locations_batch qt locs d1).
Qed.

(** *** The further properties of the stream *)




(** X9. No yielded record is a near duplicate of any of the three records
    yielded before it for its vehicle. *)
Theorem no_yielded_near_duplicate_in_last_three batches k A L B prev :
  of_vehicle k (yielded (locations batches).1) = A ++ L :: B ->
  prev ∈ last_n 3 A -> ~ near_duplicate L prev.
Proof.
  unfold locations. rewrite locations_from_seq. intros E.
  now apply (locations_seq_fresh k (processing_order batches) A L B).
Qed.

Lemma no_yielded_near_duplicate_in_last_three_witness :
  of_vehicle 7 (yielded (locations five_reports).1)
    = [report 100 "A"; report 100.5 "B"; report 101 "C"; report 101.5 "D"]
        ++ report 102 "A" :: []
  /\ ~ near_duplicate (report 102 "A") (report 101.5 "D").
Proof.
  assert (E : of_vehicle 7 (yielded (locations five_reports).1)
              = [report 100 "A"; report 100.5 "B"; report 101 "C"; report 101.5 "D"]
                  ++ report 102 "A" :: []).
  { vm_compute. reflexivity. }
  split; [exact E|].
  apply (no_yielded_near_duplicate_in_last_three five_reports 7 _ _ _ _ E).
  vm_compute. apply list_elem_of_further, list_elem_of_further, list_elem_of_here.
Defined.


(** X11. A warning is never left alone: the event after it is the yield of
    the record the warning is about. *)
Theorem warning_is_followed_by_its_record batches (i : nat) w :
  (locations batches).1 !! i = Some (Warn w) ->
  exists qt loc,
    w = out_of_order_warning qt loc
    /\ (locations batches).1 !! S i = Some (Yield loc).
Proof.
  unfold locations. rewrite locations_from_seq. apply locations_seq_announced.
Qed.

Lemma warning_is_followed_by_its_record_witness :
  exists qt loc,
    out_of_order_warning 105 late_report = out_of_order_warning qt loc
    /\ (locations (five_reports ++ [(105%float, [late_report])])).1 !! 6%nat
       = Some (Yield loc).
Proof.
  apply (warning_is_followed_by_its_record
           (five_reports ++ [(105%float, [late_report])]) 5
           (out_of_order_warning 105 late_report)).
  vm_compute. reflexivity.
Defined.

(** X12. A batch that comes a second time, right after itself, logs and
    yields nothing and changes no history, whatever its query timestamp,
    when it has one record per vehicle and each record is a near duplicate
    of itself (as it is when its timestamp and its position are finite). *)
Theorem repeated_batch_yields_nothing batches qt qt' (locs : list vehicle_location) :
  NoDup (id <$> locs) ->
  Forall (fun loc => is_duplicate loc loc = true) locs ->
  (locations ((batches ++ [(qt, locs)]) ++ [(qt', locs)])).1
  = (locations (batches ++ [(qt, locs)])).1
  /\ forall k,
       history_of (locations ((batches ++ [(qt, locs)]) ++ [(qt', locs)])).2 k
       = history_of (locations (batches ++ [(qt, locs)])).2 k.
Proof.
  intros Hnd Hself.
  unfold locations at 1 3. rewrite locations_from_snoc. cbn [fst snd].
  destruct (locations_batch_all_known qt' locs (locations (batches ++ [(qt, locs)])).2)
    as [E1 E2].
  { unfold locations. rewrite locations_from_snoc. cbn [snd].
    now apply locations_batch_known. }
  rewrite E1, app_nil_r. split; [reflexivity | exact E2].
Qed.

Lemma repeated_batch_yields_nothing_witness :
  (locations (([] ++ [(7%float, [first_vehicle; second_vehicle])])
                ++ [(8%float, [first_vehicle; second_vehicle])])).1
  = (locations ([] ++ [(7%float, [first_vehicle; second_vehicle])])).1
  /\ forall k,
       history_of (locations (([] ++ [(7%float, [first_vehicle; second_vehicle])])
                                ++ [(8%float, [first_vehicle; second_vehicle])])).2 k
       = history_of (locations ([] ++ [(7%float, [first_vehicle; second_vehicle])])).2 k.
Proof.
  apply repeated_batch_yields_nothing.
  - apply (bool_decide_unpack _). vm_compute. exact I.
  - repeat constructor.
Defined.

(** X13. A run logs no warning exactly when, for every vehicle, each
    yielded record is newer than the record yielded before it for that
    vehicle. *)
Theorem no_warning_iff_ascending batches :
  warnings (locations batches).1 = []
  <-> forall k, ascending (of_vehicle k (yielded (locations batches).1)).
Proof.
  unfold locations. rewrite locations_from_seq. apply locations_seq_warnings.
Qed.

End DeduplicatorStream.

(** * Further properties of the response parser *)

Section ResponseParserBatches.

Implicit Types (body lines : list string)
  (raw : vehicle_location_of Z) (raws acc : list (vehicle_location_of Z)).

(** *** Vehicle ids *)

Lemma existsb_id acc (k : Z) :
  existsb (fun l => id l =? k) acc = false <-> k ∉ id <$> acc.
Proof.
  induction acc as [|raw acc IH]; cbn [existsb].
  - split; [intros _; apply not_elem_of_nil | reflexivity].
  - rewrite fmap_cons, not_elem_of_cons, orb_false_iff, IH, Z.eqb_neq.
    split; intros [? ?]; split; congruence.
Qed.

(** The vehicle loop, when every line decodes: it fails at the first line
    whose id is already stored. *)
Lemma parse_vehicles_decoded lines : forall raws acc,
  Forall2 (fun l raw => parse_vehicle l = Ok raw) lines raws ->
  NoDup (id <$> acc) ->
  parse_vehicles lines acc
  = if decide (NoDup (id <$> acc ++ raws)) then Ok (acc ++ raws)
    else Raise AssertionError.
Proof.
  induction lines as [|l lines IH]; intros raws acc Hall Hacc.
  - apply Forall2_nil_inv_l in Hall as ->. rewrite app_nil_r.
    now rewrite decide_True.
  - apply Forall2_cons_inv_l in Hall as (raw & raws' & Hraw & Hall & ->).
    cbn [parse_vehicles]. rewrite Hraw. cbn [mbind result_bind].
    destruct (existsb (fun l0 => id l0 =? id raw) acc) eqn:E.
    + cbn [negb assert mbind result_bind]. rewrite decide_False; [reflexivity|].
      intros Hnd. apply not_false_iff_true in E. apply E, existsb_id.
      rewrite fmap_app, fmap_cons in Hnd. apply NoDup_app in Hnd as (_ & Hdisj & _).
      intros Hin. apply (Hdisj _ Hin), list_elem_of_here.
    + cbn [negb assert mbind result_bind]. apply existsb_id in E.
      rewrite (IH raws' (acc ++ [raw])); [|assumption|].
      * rewrite <- app_assoc. reflexivity.
      * rewrite fmap_app. apply NoDup_app. split; [assumption|].
        split; [|apply NoDup_singleton].
        intros x Hx Hx'. apply list_elem_of_singleton in Hx'. now subst.
Qed.

Lemma parse_vehicles_NoDup lines : forall acc res,
  parse_vehicles lines acc = Ok res -> NoDup (id <$> acc) -> NoDup (id <$> res).
Proof.
  intros acc res H Hacc.
  destruct (parse_vehicles_spec lines acc res H) as (raws & -> & Hall).
  rewrite (parse_vehicles_decoded lines raws acc Hall Hacc) in H.
  now destruct (decide (NoDup (id <$> acc ++ raws))).
Qed.

Lemma absolute_locations_ids qt raws (locs : list vehicle_location) :
  Forall2 (fun raw loc => exists secs, float_of_int (timestamp raw) = Ok secs
                          /\ loc = replace_timestamp raw (qt - secs)%float)
          raws locs ->
  id <$> locs = id <$> raws.
Proof.
  intros H. induction H as [|raw loc raws locs (secs & _ & ->) _ IH]; [reflexivity|].
  rewrite !fmap_cons, IH. reflexivity.
Qed.

(** *** A yielded batch *)

Lemma query_data_body_Some body qt (locs : list vehicle_location) :
  query_data_body body = Ok (Some (qt, locs)) ->
  exists seg raws,
    retained body = Ok seg
    /\ parse_vehicles (slice seg 2 (-2)) [] = Ok raws
    /\ Forall2 (fun l raw => parse_vehicle l = Ok raw) (slice seg 2 (-2)) raws
    /\ Forall2 (fun raw loc => exists secs, float_of_int (timestamp raw) = Ok secs
                               /\ loc = replace_timestamp raw (qt - secs)%float)
               raws locs.
Proof.
  intros H. unfold query_data_body in H.
  apply bind_Ok in H as (seg & Hseg & H). unfold query_data_segment in H.
  apply bind_Ok in H as (l1 & _ & H). apply bind_Ok in H as (? & _ & H).
  apply bind_Ok in H as (? & _ & H). apply bind_Ok in H as (l_1 & _ & H).
  apply bind_Ok in H as (? & _ & H). apply bind_Ok in H as (l2 & _ & H).
  match type of H with (if ?c then _ else _) = _ => destruct c end.
  { apply bind_Ok in H as (? & _ & H). apply bind_Ok in H as (? & _ & H).
    discriminate. }
  apply bind_Ok in H as (l_2 & _ & H).
  apply bind_Ok in H as (last_time & _ & H).
  apply bind_Ok in H as (raws' & Hraws & H).
  pose proof Hraws as Hparse.
  apply parse_vehicles_spec in Hraws as (raws & -> & Hall). simpl in H, Hparse.
  destruct raws as [|raw raws]; [discriminate|].
  apply bind_Ok in H as (secs & _ & H).
  apply bind_Ok in H as (locs' & Hlocs & H).
  injection H as <- <-.
  exists seg, (raw :: raws). repeat (split; [assumption|]).
  now apply absolute_locations_spec.
Qed.

(** *** The retained segment of a frame *)

Lemma xml_header_from_bounds body : forall i x,
  x ∈ xml_header_from i body -> i <= x < i + Z.of_nat (length body).
Proof.
  induction body as [|l body IH]; intros i x Hx; simpl in Hx.
  - now apply elem_of_nil in Hx.
  - assert (Hrest : x ∈ xml_header_from (i + 1) body ->
                    i <= x < i + Z.of_nat (length (l :: body))).
    { intros H. apply IH in H. simpl length. lia. }
    destruct (is_xml_header l); [|auto].
    apply elem_of_cons in Hx as [->|Hx]; [simpl length; lia | auto].
Qed.

Lemma getitem_Ok_elem_of {A} (l : list A) i x : getitem l i = Ok x -> x ∈ l.
Proof.
  unfold getitem. destruct (_ <? 0); [discriminate|].
  destruct (l !! _) eqn:E; [|discriminate]. intros [= <-].
  now apply list_elem_of_lookup_2 in E.
Qed.

(** The retained segment is the body without some of its lines at the
    front, and is not empty. *)
Lemma retained_drop body seg :
  retained body = Ok seg ->
  exists n, (n < length body)%nat /\ seg = drop n body.
Proof.
  unfold retained. intros H. apply bind_Ok in H as (start & Hstart & H).
  injection H as <-.
  apply getitem_Ok_elem_of, xml_header_from_bounds in Hstart.
  exists (Z.to_nat start). split; [lia|].
  unfold slice_from, clamp. destruct (Z.ltb_spec start 0); [lia|].
  now rewrite (Z.min_l start) by lia.
Qed.

(** *** Text without white space *)

Lemma split_whitespace_no_space (s : string) : Forall no_space (split_whitespace s).
Proof.
  unfold no_space.
  induction s as [|c s IH]; [constructor|].
  cbn [split_whitespace]. destruct (is_space c) eqn:Ec; [exact IH|].
  assert (Hc : all_in (fun c0 => negb (is_space c0)) (String c "")).
  { apply all_in_cons. split; [now rewrite Ec | apply all_in_nil]. }
  destruct s as [|c' s']; [now constructor|].
  destruct (is_space c') eqn:Ec'; [now constructor|].
  destruct (split_whitespace (String c' s')) as [|w ws]; [now constructor|].
  apply Forall_cons in IH as [Hw Hws]. constructor; [|exact Hws].
  apply all_in_cons. split; [now rewrite Ec | exact Hw].
Qed.

Lemma attribute_no_space (token : string) (a : string * string) :
  attribute token a -> no_space token -> no_space a.2.
Proof.
  unfold no_space. intros (value & -> & _ & _ & Hq) H.
  apply all_in_append in H as [_ H]. apply all_in_cons in H as [_ H].
  destruct Hq as [[_ ->] | ->]; [apply all_in_nil|].
  apply all_in_cons in H as [_ H]. now apply all_in_append in H as [H _].
Qed.

Lemma pairs_no_space (tokens : list string) (pairs : list (string * string)) a :
  Forall2 attribute tokens pairs -> Forall no_space tokens -> a ∈ pairs ->
  no_space a.2.
Proof.
  intros Hall Htok Hin. apply list_elem_of_lookup in Hin as [i Hi].
  destruct (Forall2_lookup_r _ _ _ _ _ Hall Hi) as (token & Htoken & Hattr).
  apply (attribute_no_space token a Hattr).
  rewrite Forall_lookup in Htok. now apply (Htok i).
Qed.

Lemma parse_vehicle_no_space (l : string) raw :
  parse_vehicle l = Ok raw ->
  no_space (route raw) /\ no_space (default "" (dir raw)).
Proof.
  intros H. apply parse_vehicle_spec in H
    as (_ & _ & pairs & Hpairs & _ & _ & _ & Hroute & Hdir & _).
  pose proof (split_whitespace_no_space (str_slice (strip l) 9 (-2))) as Htok.
  split.
  - apply (pairs_no_space _ _ ("routeTag", route raw) Hpairs Htok Hroute).
  - destruct (dir raw) as [v|]; [|apply all_in_nil].
    apply (pairs_no_space _ _ ("dirTag", v) Hpairs Htok Hdir).
Qed.

Lemma query_data_body_no_space body qt (locs : list vehicle_location)
    (loc : vehicle_location) :
  query_data_body body = Ok (Some (qt, locs)) -> loc ∈ locs ->
  no_space (route loc) /\ no_space (default "" (dir loc)).
Proof.
  intros H Hin.
  apply query_data_body_Some in H as (seg & raws & _ & _ & Hraws & Hlocs).
  apply list_elem_of_lookup in Hin as [i Hi].
  destruct (Forall2_lookup_r _ _ _ _ _ Hlocs Hi) as (raw & Hraw & secs & _ & ->).
  destruct (Forall2_lookup_r _ _ _ _ _ Hraws Hraw) as (l & _ & Hl).
  now apply parse_vehicle_no_space in Hl.
Qed.

(** *** Exceptions of the conversions *)

Lemma int_raises (s : string) e : int s = Raise e -> e = ValueError.
Proof.
  unfold int. destruct (match strip s with "" => _ | String _ _ => _ end);
    [discriminate | now intros [= <-]].
Qed.

Lemma float_of_str_raises (s : string) e : float_of_str s = Raise e -> e = ValueError.
Proof.
  unfold float_of_str. destruct (match strip s with "" => _ | String _ _ => _ end);
    [discriminate | now intros [= <-]].
Qed.

(** Looking a key up and converting its value: a value, a [KeyError] for a
    key that is not there, or a [ValueError]. *)
Lemma attr_conv_cases {A} (attrs : gmap string string) (key : string)
    (conv : string -> result A) :
  (forall s e, conv s = Raise e -> e = ValueError) ->
  (exists v x, attrs !! key = Some v /\ attr attrs key ≫= conv = Ok x)
  \/ (attrs !! key = None /\ attr attrs key ≫= conv = Raise KeyError)
  \/ (attr attrs key ≫= conv = Raise ValueError).
Proof.
  intros Hconv. unfold attr. destruct (attrs !! key) as [v|]; [|now right; left].
  cbn [mbind result_bind]. destruct (conv v) as [x|e] eqn:E.
  - left. now exists v, x.
  - right. right. now rewrite (Hconv v e E).
Qed.

(** *** The further properties of the parser *)

(** X14. The check of the closing line cannot fail on a body that [bodies]
    yields: when such a body has a header line, the last line of the
    retained segment is there and, trimmed, is [</body>]. *)
Theorem closing_check_passes_on_framed_bodies lines body seg :
  body ∈ bodies lines -> retained body = Ok seg ->
  exists l, getitem seg (-1) = Ok l /\ strip l = "</body>".
Proof.
  intros Hin Hseg.
  destruct (bodies_from_framed lines [] body buffer_ok_nil Hin)
    as (init & last & -> & Hlast & _ & _).
  apply retained_drop in Hseg as (n & Hn & ->).
  rewrite length_app in Hn. simpl in Hn.
  exists last. rewrite drop_app_le by lia. rewrite getitem_last.
  split; [reflexivity | now apply String.eqb_eq].
Qed.

Lemma closing_check_passes_on_framed_bodies_witness :
  exists l, getitem worked_body (-1) = Ok l /\ strip l = "</body>".
Proof.
  apply (closing_check_passes_on_framed_bodies
           (error_page ++ retried_body) retried_body worked_body).
  - vm_compute. apply list_elem_of_here.
  - vm_compute. reflexivity.
Defined.

(** X15. The records of a yielded batch have pairwise distinct vehicle
    ids. *)
Theorem batch_has_distinct_ids body qt (locs : list vehicle_location) :
  query_data_body body = Ok (Some (qt, locs)) -> NoDup (id <$> locs).
Proof.
  intros H. apply query_data_body_Some in H as (seg & raws & _ & Hraws & _ & Hlocs).
  rewrite (absolute_locations_ids qt raws locs Hlocs).
  apply (parse_vehicles_NoDup _ _ _ Hraws), NoDup_nil_2.
Qed.

Lemma batch_has_distinct_ids_witness :
  NoDup (id <$> [first_vehicle; second_vehicle]).
Proof.
  apply (batch_has_distinct_ids two_vehicle_body 7%float).
  vm_compute. reflexivity.
Defined.



(** X17. [query_data] over bodies followed by more bodies: the batches of
    the first bodies, then those of the others; an exception raised in the
    first bodies ends the generator, which keeps what it yielded before and
    never looks at the others. *)
Theorem query_data_stops_at_the_first_exception (bs bs' : list (list string)) :
  query_data_from (bs ++ bs')
  = match query_data_from bs with
    | (batches, Some e) => (batches, Some e)
    | (batches, None) =>
        let '(batches', e') := query_data_from bs' in (batches ++ batches', e')
    end.
Proof.
  induction bs as [|body bs IH].
  - simpl. now destruct (query_data_from bs').
  - cbn [app query_data_from].
    destruct (query_data_body body) as [[batch|]|e]; [| exact IH | reflexivity].
    rewrite IH. destruct (query_data_from bs) as [batches [e|]]; [reflexivity|].
    now destruct (query_data_from bs').
Qed.

(** X18. The route and the direction of a record of a yielded batch have
    no white space, so no newline. *)
Theorem parsed_text_has_no_white_space body qt (locs : list vehicle_location)
    (loc : vehicle_location) :
  query_data_body body = Ok (Some (qt, locs)) -> loc ∈ locs ->
  no_space (route loc) /\ no_space (default "" (dir loc))
  /\ occurs newline (route loc) = false
  /\ occurs newline (default "" (dir loc)) = false.
Proof.
  intros H Hin.
  destruct (query_data_body_no_space body qt locs loc H Hin) as [Hroute Hdir].
  repeat split; try assumption.
  - now apply (all_in_occurs _ _ newline) in Hroute.
  - now apply (all_in_occurs _ _ newline) in Hdir.
Qed.

Lemma parsed_text_has_no_white_space_witness :
  no_space (route first_vehicle) /\ no_space (default "" (dir first_vehicle))
  /\ occurs newline (route first_vehicle) = false
  /\ occurs newline (default "" (dir first_vehicle)) = false.
Proof.
  apply (parsed_text_has_no_white_space two_vehicle_body 7%float
           [first_vehicle; second_vehicle] first_vehicle).
  - vm_compute. reflexivity.
  - apply list_elem_of_here.
Defined.

(** X19. A vehicle line that has the shape of one and whose attributes are
    read, but which lacks one of the seven required attributes, fails with
    a [KeyError], or with a [ValueError] when a value looked up before the
    missing one does not convert. *)
Theorem missing_attribute_raises (l : string) (attrs : gmap string string)
    (key : string) :
  startswith (strip l) (py "<vehicle id='") && endswith (strip l) (py "'/>") = true ->
  parse_attrs (split_whitespace (str_slice (strip l) 9 (-2))) ∅ = Ok attrs ->
  key ∈ required_keys -> attrs !! key = None ->
  parse_vehicle l = Raise KeyError \/ parse_vehicle l = Raise ValueError.
Proof.
  intros Hshape Hattrs Hkey Hnone. unfold parse_vehicle.
  rewrite Hshape. cbn [assert mbind result_bind].
  change (len "<vehicle ") with 9. change (- len "/>") with (-2).
  rewrite Hattrs. cbn [mbind result_bind].
  unfold required_keys in Hkey.
  destruct (attr_conv_cases attrs "secsSinceReport" int int_raises)
    as [(? & ? & K1 & ->)|[[_ ->]| ->]]; [|left; reflexivity|right; reflexivity].
  cbn [mbind result_bind].
  destruct (attr_conv_cases attrs "id" int int_raises)
    as [(? & ? & K2 & ->)|[[_ ->]| ->]]; [|left; reflexivity|right; reflexivity].
  cbn [mbind result_bind].
  destruct (attr attrs "routeTag") as [vroute|e] eqn:K3.
  2:{ left. unfold attr in K3. destruct (attrs !! "routeTag"); [discriminate|].
      now injection K3 as <-. }
  apply attr_Ok in K3.
  cbn [mbind result_bind].
  destruct (attr_conv_cases attrs "lat" float_of_str float_of_str_raises)
    as [(? & ? & K4 & ->)|[[_ ->]| ->]]; [|left; reflexivity|right; reflexivity].
  cbn [mbind result_bind].
  destruct (attr_conv_cases attrs "lon" float_of_str float_of_str_raises)
    as [(? & ? & K5 & ->)|[[_ ->]| ->]]; [|left; reflexivity|right; reflexivity].
  cbn [mbind result_bind].
  destruct (attr_conv_cases attrs "heading" int int_raises)
    as [(? & ? & K6 & ->)|[[_ ->]| ->]]; [|left; reflexivity|right; reflexivity].
  cbn [mbind result_bind].
  destruct (attr_conv_cases attrs "speedKmHr" int int_raises)
    as [(? & ? & K7 & ->)|[[_ ->]| ->]]; [|left; reflexivity|right; reflexivity].
  exfalso. repeat (apply elem_of_cons in Hkey as [->|Hkey]; [congruence|]).
  now apply elem_of_nil in Hkey.
Qed.

Lemma missing_attribute_raises_witness :
  parse_vehicle no_heading_line = Raise KeyError
  \/ parse_vehicle no_heading_line = Raise ValueError.
Proof.
  eapply (missing_attribute_raises no_heading_line _ "heading").
  - vm_compute. reflexivity.
  - vm_compute. reflexivity.
  - apply (bool_decide_unpack _). vm_compute. exact I.
  - vm_compute. reflexivity.
Defined.

End ResponseParserBatches.

(** * Further properties of the CSV writer and reader *)

Section CSVFiles.

Implicit Types (loc : vehicle_location) (locs : list vehicle_location)
  (lines more : list string).

(** *** Counting commas *)

Lemma count_char_append c (a b : string) :
  count_char c (a +:+ b) = (count_char c a + count_char c b)%nat.
Proof.
  induction a as [|c' a IH]; [reflexivity|].
  rewrite append_cons. cbn [count_char]. rewrite IH. lia.
Qed.

Lemma count_char_occurs c (s : string) :
  occurs c s = false <-> count_char c s = 0%nat.
Proof.
  induction s as [|c' s IH]; [easy|].
  cbn [occurs count_char]. rewrite orb_false_iff, IH.
  destruct (Ascii.eqb c' c); split; (lia || intros []; (discriminate || lia) || auto).
Qed.

(** [s.split(sep)] has one part more than [s] has separators. *)
Lemma split_on_length sep (s : string) :
  length (split_on sep s) = S (count_char sep s).
Proof.
  induction s as [|c s IH]; [reflexivity|].
  cbn [split_on count_char]. destruct (Ascii.eqb c sep).
  - simpl. now rewrite IH.
  - destruct (split_on sep s); [discriminate IH | exact IH].
Qed.

(** A line that does not have eight fields cannot fill the tuple. *)
Lemma read_csv_line_TypeError (l : string) :
  length (split_on "," (rstrip_with (Ascii.eqb newline) l)) <> 8%nat ->
  read_csv_line l = Raise TypeError.
Proof.
  unfold read_csv_line. generalize (split_on "," (rstrip_with (Ascii.eqb newline) l)).
  intros fields Hlen. rewrite bool_decide_eq_false_2.
  - do 9 (destruct fields as [|? fields]; try reflexivity). now elim Hlen.
  - intros ->. now elim Hlen.
Qed.

Lemma csv_fields_newline loc :
  one_line loc -> Forall (fun f => occurs newline f = false) (csv_fields loc).
Proof.
  intros [Hroute Hdir]. unfold csv_fields.
  repeat constructor; try assumption;
    try (apply text_ok_spec, str_int_text_ok);
    try (apply text_ok_spec, float_text_ok_spec, float_text_ok_all).
Qed.

Lemma csv_safe_one_line loc : csv_safe loc = true -> one_line loc.
Proof.
  intros H. apply csv_safe_spec in H as [Hroute Hdir].
  split; [now apply text_ok_spec in Hroute|].
  destruct (dir loc) as [d|]; [|reflexivity].
  apply andb_true_iff in Hdir as [_ Hdir]. now apply text_ok_spec in Hdir.
Qed.

(** The commas of a written line: seven, and those of the route and of the
    direction. *)
Lemma csv_line_commas loc :
  count_char "," (join "," (csv_fields loc))
  = (7 + count_char "," (route loc) + count_char "," (default "" (dir loc)))%nat.
Proof.
  unfold csv_fields. cbn [join]. rewrite !count_char_append.
  assert (Hf : forall x, count_char "," (str_float x) = 0%nat).
  { intros x.
    apply count_char_occurs, text_ok_spec, float_text_ok_spec, float_text_ok_all. }
  assert (Hi : forall z, count_char "," (str_int z) = 0%nat).
  { intros z. apply count_char_occurs, text_ok_spec, str_int_text_ok. }
  rewrite !Hf, !Hi. change (count_char "," ",") with 1%nat. lia.
Qed.

(** *** The lines of a written text *)

Lemma file_lines_lines lines (rest_text : string) :
  Forall (fun l => exists s, l = s +:+ nl /\ occurs newline s = false) lines ->
  file_lines (writelines lines +:+ rest_text) = lines ++ file_lines rest_text.
Proof.
  intros H. induction H as [|l lines (s & -> & Hs) _ IH]; [reflexivity|].
  rewrite writelines_cons, append_assoc, file_lines_line by assumption.
  now rewrite IH.
Qed.

Lemma csv_lines_lines locs :
  Forall one_line locs ->
  Forall (fun l => exists s, l = s +:+ nl /\ occurs newline s = false) (csv_lines locs).
Proof.
  intros H. unfold csv_lines. constructor.
  - now eexists.
  - apply Forall_fmap. eapply Forall_impl; [exact H|]. intros loc Hloc. cbv beta.
    eexists. split; [reflexivity|].
    apply occurs_join; [reflexivity | now apply csv_fields_newline].
Qed.

Lemma file_lines_csv_lines locs :
  Forall one_line locs ->
  file_lines (writelines (csv_lines locs)) = csv_lines locs.
Proof.
  intros H. rewrite <- (append_nil_r (writelines _)).
  rewrite file_lines_lines by now apply csv_lines_lines.
  apply app_nil_r.
Qed.

(** *** Reading the lines of several runs *)

Lemma read_csv_lines_csv_lines locs more :
  Forall (fun loc => csv_safe loc = true) locs ->
  read_csv_lines (csv_lines locs ++ more)
  = (let '(m, e) := read_csv_lines more in ((reread <$> locs) ++ m, e)).
Proof.
  intros H. unfold csv_lines. cbn [app read_csv_lines].
  change (join "," header_fields) with "timestamp,id,route,dir,lat,lon,heading,speed".
  change (read_csv_line ("timestamp,id,route,dir,lat,lon,heading,speed" +:+ nl))
    with (@Ok (option vehicle_location) None).
  cbv iota.
  induction H as [|loc locs Hloc H IH].
  - simpl. now destruct (read_csv_lines more).
  - rewrite fmap_cons. cbn [app read_csv_lines].
    rewrite read_csv_line_csv by assumption. rewrite IH.
    now destruct (read_csv_lines more).
Qed.

Lemma read_csv_lines_runs (runs : list (list vehicle_location)) :
  Forall (Forall (fun loc => csv_safe loc = true)) runs ->
  read_csv_lines (concat (csv_lines <$> runs)) = (reread <$> concat runs, None).
Proof.
  intros H. induction H as [|locs runs Hlocs H IH]; [reflexivity|].
  rewrite fmap_cons. cbn [concat].
  rewrite read_csv_lines_csv_lines by assumption.
  rewrite IH. now rewrite fmap_app.
Qed.

(** *** The further properties of the CSV writer and reader *)

(** X20. A record whose route or direction has a comma is written as a
    line that [read_csv] cannot read: the line has more than eight fields
    and the reader fails with a [TypeError]. *)
Theorem comma_in_route_or_dir_is_not_read_back loc :
  one_line loc ->
  occurs "," (route loc) || occurs "," (default "" (dir loc)) = true ->
  read_csv_line (join "," (csv_fields loc) +:+ nl) = Raise TypeError.
Proof.
  intros Hline Hcomma. apply read_csv_line_TypeError.
  rewrite rstrip_newline.
  2:{ apply occurs_join; [reflexivity | now apply csv_fields_newline]. }
  rewrite split_on_length, csv_line_commas.
  apply orb_true_iff in Hcomma.
  assert (count_char "," (route loc) <> 0
          \/ count_char "," (default "" (dir loc)) <> 0)%nat.
  { destruct Hcomma as [H|H]; [left|right]; rewrite <- count_char_occurs; congruence. }
  lia.
Qed.

Lemma comma_in_route_or_dir_is_not_read_back_witness :
  read_csv_line (join "," (csv_fields comma_route_report) +:+ nl) = Raise TypeError.
Proof.
  apply comma_in_route_or_dir_is_not_read_back; [split; reflexivity | reflexivity].
Defined.

(** X21. When no route and no direction has a newline, the text that [csv]
    writes has one line for the header and one line for each record: read
    line by line, the file gives back the lines that [csv] yielded. *)
Theorem csv_text_has_one_line_per_record locs :
  Forall one_line locs ->
  file_lines (writelines (csv_lines locs)) = csv_lines locs
  /\ length (file_lines (writelines (csv_lines locs))) = S (length locs).
Proof.
  intros H. rewrite file_lines_csv_lines by assumption.
  split; [reflexivity|]. unfold csv_lines. simpl. now rewrite length_fmap.
Qed.

Lemma csv_text_has_one_line_per_record_witness :
  file_lines (writelines (csv_lines [standing_first; late_report]))
  = csv_lines [standing_first; late_report]
  /\ length (file_lines (writelines (csv_lines [standing_first; late_report])))
     = 3%nat.
Proof.
  apply (csv_text_has_one_line_per_record [standing_first; late_report]).
  repeat constructor.
Defined.

(** X22. The outputs of several runs are read back as one stream: whether
    [read_csv] is given one file per run, or one file with the outputs one
    after the other, it skips every header line, raises nothing and yields
    the records of the runs in order, each float replaced by the float that
    its text denotes. *)
Theorem concatenated_csv_is_read_back (runs : list (list vehicle_location)) :
  Forall (Forall (fun loc => csv_safe loc = true)) runs ->
  read_csv ((fun locs => writelines (csv_lines locs)) <$> runs)
    = (reread <$> concat runs, None)
  /\ read_csv [writelines (concat (csv_lines <$> runs))]
    = (reread <$> concat runs, None).
Proof.
  intros H.
  assert (Hlines : Forall (Forall one_line) runs).
  { eapply Forall_impl; [exact H|]. intros locs Hlocs.
    eapply Forall_impl; [exact Hlocs|]. apply csv_safe_one_line. }
  split.
  - unfold read_csv. rewrite <- read_csv_lines_runs by assumption. f_equal.
    clear H. induction Hlines as [|locs runs Hlocs _ IH]; [reflexivity|].
    rewrite !fmap_cons. cbn [mbind list_bind concat].
    rewrite (file_lines_csv_lines locs Hlocs). f_equal. exact IH.
  - unfold read_csv. cbn [mbind list_bind]. rewrite app_nil_r.
    rewrite <- read_csv_lines_runs by assumption. f_equal.
    rewrite <- (append_nil_r (writelines _)).
    rewrite file_lines_lines; [apply app_nil_r|].
    clear H. induction Hlines as [|locs runs Hlocs _ IH]; [constructor|].
    rewrite fmap_cons. cbn [concat]. apply Forall_app. split; [|exact IH].
    now apply csv_lines_lines.
Qed.

Lemma concatenated_csv_is_read_back_witness :
  read_csv ((fun locs => writelines (csv_lines locs))
              <$> [[standing_first]; [late_report]])
    = (reread <$> concat [[standing_first]; [late_report]], None)
  /\ read_csv [writelines (concat (csv_lines <$> [[standing_first]; [late_report]]))]
    = (reread <$> concat [[standing_first]; [late_report]], None).
Proof.
  apply (concatenated_csv_is_read_back [[standing_first]; [late_report]]).
  repeat constructor.
Defined.

End CSVFiles.

(** * Properties of the choice of a reader for a path *)

Section Paths.

Implicit Types (f : string).

Lemma endswith_occurs f (c : ascii) (p : string) :
  endswith f p = true -> occurs c p = true -> occurs c f = true.
Proof.
  intros H Hc. apply endswith_spec in H as [q ->].
  rewrite occurs_append, Hc. apply orb_true_r.
Qed.

Lemma endswith_append f (p p' : string) :
  endswith f (p +:+ p') = true -> endswith f p' = true.
Proof.
  intros H. apply endswith_spec in H as [q ->]. apply endswith_spec.
  exists (q +:+ p). now rewrite append_assoc.
Qed.

Lemma endswith_last f (p : string) (c : ascii) :
  endswith f (p +:+ String c "") = true -> last (list_ascii_of_string f) = Some c.
Proof.
  intros H. apply endswith_spec in H as [q ->].
  rewrite <- append_assoc, list_ascii_of_string_append. apply last_snoc.
Qed.

(** X23. How [Archive] reads a path that is not a directory: through [tar]
    exactly when the path ends with [.tar], [.tar.gz] or [.tar.bz2]; as
    plain text exactly when the path has no dot at all; through [gzip] or
    [bz2] exactly when it ends with [.gz] or [.bz2] and is no tar archive;
    and every other path, one with a dot and none of these endings, fails
    the assertion. *)
Theorem path_dispatch f :
  (Archive_init_path f = Ok TarOutput
   <-> endswith f ".tar" = true \/ endswith f ".tar.gz" = true
       \/ endswith f ".tar.bz2" = true)
  /\ (Archive_init_path f = Ok (OpenedFile PlainFile) <-> occurs "." f = false)
  /\ (Archive_init_path f = Ok (OpenedFile GzipFile)
      <-> endswith f ".gz" = true /\ endswith f ".tar.gz" = false)
  /\ (Archive_init_path f = Ok (OpenedFile BZ2File)
      <-> endswith f ".bz2" = true /\ endswith f ".tar.bz2" = false)
  /\ (Archive_init_path f = Raise AssertionError
      <-> occurs "." f = true /\ endswith f ".tar" = false
          /\ endswith f ".gz" = false /\ endswith f ".bz2" = false).
Proof.
  pose proof (endswith_occurs f "." ".tar") as Htar.
  pose proof (endswith_occurs f "." ".gz") as Hgz.
  pose proof (endswith_occurs f "." ".bz2") as Hbz2.
  pose proof (endswith_append f ".tar" ".gz") as Htgz.
  pose proof (endswith_append f ".tar" ".bz2") as Htbz2.
  pose proof (endswith_last f ".ta" "r") as Lr.
  pose proof (endswith_last f ".g" "z") as Lz.
  pose proof (endswith_last f ".bz" "2") as L2.
  change (".ta" +:+ "r") with ".tar" in Lr.
  change (".g" +:+ "z") with ".gz" in Lz.
  change (".bz" +:+ "2") with ".bz2" in L2.
  unfold Archive_init_path, open_maybe_compressed.
  change (".tar" +:+ ".gz") with ".tar.gz" in Htgz.
  change (".tar" +:+ ".bz2") with ".tar.bz2" in Htbz2.
  destruct (endswith f ".tar") eqn:E1, (endswith f ".tar.gz") eqn:E2,
    (endswith f ".tar.bz2") eqn:E3, (endswith f ".gz") eqn:E4,
    (endswith f ".bz2") eqn:E5, (occurs "." f) eqn:E6;
    cbn [orb negb assert mbind result_bind];
    try (specialize (Htar eq_refl eq_refl)); try (specialize (Hgz eq_refl eq_refl));
    try (specialize (Hbz2 eq_refl eq_refl));
    try (specialize (Htgz eq_refl)); try (specialize (Htbz2 eq_refl));
    try (specialize (Lr eq_refl)); try (specialize (Lz eq_refl));
    try (specialize (L2 eq_refl));
    try discriminate; try congruence;
    repeat split; try discriminate; try tauto; try (intros [? ?]; discriminate);
    try (intros (? & ? & ? & ?); discriminate);
    try (intros [?|[?|?]]; discriminate).
Qed.

End Paths.

(** * From a capture to the CSV file and back *)

Section Pipeline.

Implicit Types (loc : vehicle_location) (locs : list vehicle_location)
  (batches : list (float * list vehicle_location)).

Lemma read_csv_lines_app (lines lines' : list string) :
  read_csv_lines (lines ++ lines')
  = match read_csv_lines lines with
    | (read, Some e) => (read, Some e)
    | (read, None) =>
        let '(read', e') := read_csv_lines lines' in (read ++ read', e')
    end.
Proof.
  induction lines as [|l lines IH].
  - simpl. now destruct (read_csv_lines lines').
  - cbn [app read_csv_lines].
    destruct (read_csv_line l) as [[loc|]|e]; [| exact IH | reflexivity].
    rewrite IH. destruct (read_csv_lines lines) as [read [e|]]; [reflexivity|].
    now destruct (read_csv_lines lines').
Qed.


(** X24. [read_csv] over files followed by more files: the records of the
    first files, then those of the others; an exception raised in the first
    files ends the generator, which keeps what it yielded before and never
    opens the others. *)
Theorem read_csv_stops_at_the_first_exception (fs fs' : list string) :
  read_csv (fs ++ fs')
  = match read_csv fs with
    | (read, Some e) => (read, Some e)
    | (read, None) => let '(read', e') := read_csv fs' in (read ++ read', e')
    end.
Proof. unfold read_csv. rewrite bind_app. apply read_csv_lines_app. Qed.



End Pipeline.
